(** * pico-303 synthesis core: oscillator, envelopes and ladder filter

    A shallow embedding of the per-sample DSP units of the firmware
    ([Oscillator], [AnalogEnvelope], [DecayEnvelope], [Filter303]) and the
    properties stated about them.

    Two readings of the C++ [float] type are used, each chosen by what is
    being proved.

    - Oscillator and envelopes are read in exact arithmetic: a [float] is a
      real number, every operator is the exact operator and [std::exp],
      [std::pow], [floorf], [fmod] are the mathematical functions.  Rounding,
      overflow and NaN are outside this reading; quotients are only relied on
      where the divisor is shown to be non-zero.
    - The ladder filter is read bit-accurately: a [float] is an IEEE-754
      binary32 value, a [double] a binary64 value, every operator rounds to
      nearest-even on its own (no fused multiply-add), and promotions follow
      the usual arithmetic conversions of the expression as written.
      [std::exp] is a parameter of that model. *)

From Stdlib Require Import Reals Lra Lia ZArith List Bool Psatz.
From Stdlib Require Import Floats.SpecFloat.

(* ================================================================== *)
(** * Part I: exact-arithmetic reading                                  *)
(* ================================================================== *)

(** ** <cmath> and <algorithm> helpers over the reals *)

Module CMath.
Local Open Scope R_scope.

(** [(int)x]: conversion to integer truncates toward zero. *)
Definition truncZ (x : R) : Z :=
  if Rle_dec 0 x then Int_part x else (- Int_part (- x))%Z.

(** [floorf(x)] *)
Definition floorf (x : R) : R := IZR (Int_part x).

(** [fmod(x, y)]: remainder of the quotient truncated toward zero. *)
Definition fmodf (x y : R) : R := x - IZR (truncZ (x / y)) * y.

(** [std::pow(x, y)] for a positive base [x]. *)
Definition powf (x y : R) : R := Rpower x y.

(** [std::exp(x)] *)
Definition expf (x : R) : R := exp x.

End CMath.

(** ** Oscillator.h / Oscillator.cpp *)

Module Oscillator.
Import CMath.
Local Open Scope R_scope.

Inductive Waveform := SAW | SQUARE.

Record t := mk {
  sampleRate : R;
  frequency : R;
  phase : R;
  phaseIncrement : R;
  blend : R;
  targetFreq : R;
  glideSamples : R;
  glideStep : R;
  glideCounter : Z;
  subBlend : R;
  subPhase : R;
  subPhaseIncrement : R;
  waveform : Waveform;
  jc303Mode : bool;
  pulseWidth : R
}.

(** The in-class member initialisers. *)
Definition init : t :=
  {| sampleRate := 44100; frequency := 440; phase := 0;
     phaseIncrement := 0.01; blend := 0; targetFreq := 440;
     glideSamples := 0; glideStep := 0; glideCounter := 0%Z;
     subBlend := 0; subPhase := 0; subPhaseIncrement := 0.005;
     waveform := SAW; jc303Mode := true; pulseWidth := 0.5 |}.

Definition setSampleRate (rate : R) (o : t) : t :=
  mk rate (frequency o) (phase o) (phaseIncrement o) (blend o)
     (targetFreq o) (glideSamples o) (glideStep o) (glideCounter o)
     (subBlend o) (subPhase o) (subPhaseIncrement o) (waveform o)
     (jc303Mode o) (pulseWidth o).

Definition setFrequency (f : R) (o : t) : t :=
  mk (sampleRate o) f 0 (f / sampleRate o) (blend o)
     (targetFreq o) (glideSamples o) (glideStep o) (glideCounter o)
     (subBlend o) 0 ((f * 0.5) / sampleRate o) (waveform o)
     (jc303Mode o) (pulseWidth o).

Definition setWaveform (w : Waveform) (o : t) : t :=
  mk (sampleRate o) (frequency o) (phase o) (phaseIncrement o) (blend o)
     (targetFreq o) (glideSamples o) (glideStep o) (glideCounter o)
     (subBlend o) (subPhase o) (subPhaseIncrement o) w
     (jc303Mode o) (pulseWidth o).

Definition setBlend (b : R) (o : t) : t :=
  mk (sampleRate o) (frequency o) (phase o) (phaseIncrement o)
     (Rmax 0 (Rmin 1 b))
     (targetFreq o) (glideSamples o) (glideStep o) (glideCounter o)
     (subBlend o) (subPhase o) (subPhaseIncrement o) (waveform o)
     (jc303Mode o) (pulseWidth o).

Definition setMode (jc303 : bool) (o : t) : t :=
  mk (sampleRate o) (frequency o) (phase o) (phaseIncrement o) (blend o)
     (targetFreq o) (glideSamples o) (glideStep o) (glideCounter o)
     (subBlend o) (subPhase o) (subPhaseIncrement o) (waveform o)
     jc303 (if jc303 then 0.53 else 0.5).

Definition glideTo (newFreq glideTimeMs : R) (o : t) : t :=
  let gs := (glideTimeMs / 1000) * sampleRate o in
  let gs := if Rlt_dec gs 1 then 1 else gs in
  mk (sampleRate o) (frequency o) (phase o) (phaseIncrement o) (blend o)
     newFreq gs (powf (newFreq / frequency o) (1 / gs)) (truncZ gs)
     (subBlend o) (subPhase o) (subPhaseIncrement o) (waveform o)
     (jc303Mode o) (pulseWidth o).

Definition tick (o : t) : t :=
  if (0 <? glideCounter o)%Z then
    let f := frequency o * glideStep o in
    mk (sampleRate o) f (phase o) (f / sampleRate o) (blend o)
       (targetFreq o) (glideSamples o) (glideStep o) (glideCounter o - 1)%Z
       (subBlend o) (subPhase o) ((f * 0.5) / sampleRate o) (waveform o)
       (jc303Mode o) (pulseWidth o)
  else o.

Definition setSubBlend (b : R) (o : t) : t :=
  mk (sampleRate o) (frequency o) (phase o) (phaseIncrement o) (blend o)
     (targetFreq o) (glideSamples o) (glideStep o) (glideCounter o)
     (Rmax 0 (Rmin 1 b)) (subPhase o) (subPhaseIncrement o) (waveform o)
     (jc303Mode o) (pulseWidth o).

Definition resetPhase (o : t) : t :=
  mk (sampleRate o) (frequency o) 0 (phaseIncrement o) (blend o)
     (targetFreq o) (glideSamples o) (glideStep o) (glideCounter o)
     (subBlend o) 0 (subPhaseIncrement o) (waveform o)
     (jc303Mode o) (pulseWidth o).

Definition polyBLEP (o : t) (t0 : R) : R :=
  if Rlt_dec t0 (phaseIncrement o) then
    let u := t0 / phaseIncrement o in
    u + u - u * u - 1
  else if Rlt_dec (1 - phaseIncrement o) t0 then
    let u := (t0 - 1) / phaseIncrement o in
    u * u + u + u + 1
  else 0.

(** The wrap [if (p >= 1.0f) p -= floorf(p)]. *)
Definition wrap (p : R) : R :=
  if Rle_dec 1 p then p - floorf p else p.

(** [process] returns the sample and the state it leaves behind. *)
Definition process (o0 : t) : R * t :=
  let o := tick o0 in
  let shifted := fmodf (phase o + 0.5) 1 in
  let saw := 2 * shifted - 1 - polyBLEP o shifted in
  let square := if Rlt_dec (phase o) (pulseWidth o) then 1 else -1 in
  let square := square + polyBLEP o (phase o) in
  let square := square - polyBLEP o (fmodf (phase o + 1 - pulseWidth o) 1) in
  let value := (1 - blend o) * square + blend o * saw in
  let subVal := if Rlt_dec (subPhase o) 0.5 then 1 else -1 in
  let subPhase' := wrap (subPhase o + subPhaseIncrement o) in
  let value := (1 - subBlend o) * value + subBlend o * subVal in
  let value := value * 0.707 in
  let phase' := wrap (phase o + phaseIncrement o) in
  (value,
   mk (sampleRate o) (frequency o) phase' (phaseIncrement o) (blend o)
      (targetFreq o) (glideSamples o) (glideStep o) (glideCounter o)
      (subBlend o) subPhase' (subPhaseIncrement o) (waveform o)
      (jc303Mode o) (pulseWidth o)).

(** [n] calls of [tick] / of [process], keeping the state. *)
Fixpoint ticks (n : nat) (o : t) : t :=
  match n with
  | O => o
  | S n' => tick (ticks n' o)
  end.

Fixpoint run (n : nat) (o : t) : t :=
  match n with
  | O => o
  | S n' => snd (process (run n' o))
  end.

(** States the public interface can produce when every sample rate and
    every frequency handed to it is positive. *)
Inductive reachable : t -> Prop :=
| r_init : reachable init
| r_setSampleRate rate o : 0 < rate -> reachable o -> reachable (setSampleRate rate o)
| r_setFrequency f o : 0 < f -> reachable o -> reachable (setFrequency f o)
| r_setWaveform w o : reachable o -> reachable (setWaveform w o)
| r_setBlend b o : reachable o -> reachable (setBlend b o)
| r_setSubBlend b o : reachable o -> reachable (setSubBlend b o)
| r_setMode m o : reachable o -> reachable (setMode m o)
| r_glideTo f ms o : 0 < f -> reachable o -> reachable (glideTo f ms o)
| r_tick o : reachable o -> reachable (tick o)
| r_resetPhase o : reachable o -> reachable (resetPhase o)
| r_process o : reachable o -> reachable (snd (process o)).

End Oscillator.

(** ** AnalogEnvelope.h / AnalogEnvelope.cpp *)

Module AnalogEnvelope.
Import CMath.
Local Open Scope R_scope.

Inductive State := IDLE | ATTACK | DECAY | RELEASE.

Record t := mk {
  state : State;
  isNoteOn : bool;
  sampleRate : R;
  decayTime : R;
  releaseTime : R;
  attackTime : R;
  decayCoeff : R;
  releaseCoeff : R;
  attackCoeff : R;
  currentLevel : R
}.

Definition init : t :=
  {| state := IDLE; isNoteOn := false; sampleRate := 44100;
     decayTime := 1000; releaseTime := 10; attackTime := 3;
     decayCoeff := 0.99; releaseCoeff := 0.9; attackCoeff := 0.1;
     currentLevel := 0 |}.

Definition calculateCoeffs (e : t) : t :=
  let attackSamples := 0.001 * attackTime e * sampleRate e in
  let attackSamples := if Rlt_dec attackSamples 1 then 1 else attackSamples in
  mk (state e) (isNoteOn e) (sampleRate e) (decayTime e) (releaseTime e)
     (attackTime e)
     (expf (-1 / (0.001 * decayTime e * sampleRate e)))
     (expf (-1 / (0.001 * releaseTime e * sampleRate e)))
     (1 / attackSamples)
     (currentLevel e).

Definition setSampleRate (sr : R) (e : t) : t :=
  calculateCoeffs
    (mk (state e) (isNoteOn e) sr (decayTime e) (releaseTime e) (attackTime e)
        (decayCoeff e) (releaseCoeff e) (attackCoeff e) (currentLevel e)).

Definition setDecay (ms : R) (e : t) : t :=
  calculateCoeffs
    (mk (state e) (isNoteOn e) (sampleRate e) ms (releaseTime e) (attackTime e)
        (decayCoeff e) (releaseCoeff e) (attackCoeff e) (currentLevel e)).

Definition setRelease (ms : R) (e : t) : t :=
  calculateCoeffs
    (mk (state e) (isNoteOn e) (sampleRate e) (decayTime e) ms (attackTime e)
        (decayCoeff e) (releaseCoeff e) (attackCoeff e) (currentLevel e)).

Definition setAttack (ms : R) (e : t) : t :=
  calculateCoeffs
    (mk (state e) (isNoteOn e) (sampleRate e) (decayTime e) (releaseTime e) ms
        (decayCoeff e) (releaseCoeff e) (attackCoeff e) (currentLevel e)).

Definition noteOn (e : t) : t :=
  mk ATTACK true (sampleRate e) (decayTime e) (releaseTime e) (attackTime e)
     (decayCoeff e) (releaseCoeff e) (attackCoeff e) 0.

Definition noteOff (e : t) : t :=
  mk RELEASE false (sampleRate e) (decayTime e) (releaseTime e) (attackTime e)
     (decayCoeff e) (releaseCoeff e) (attackCoeff e) (currentLevel e).

Definition with_level (s : State) (l : R) (e : t) : t :=
  mk s (isNoteOn e) (sampleRate e) (decayTime e) (releaseTime e) (attackTime e)
     (decayCoeff e) (releaseCoeff e) (attackCoeff e) l.

(** One sample: the new state; the value returned is its [currentLevel]. *)
Definition step (e : t) : t :=
  match state e with
  | ATTACK =>
      let l := currentLevel e + attackCoeff e in
      if Rle_dec 1 l then with_level DECAY 1 e else with_level ATTACK l e
  | DECAY =>
      let l := currentLevel e * decayCoeff e in
      if Rlt_dec l 0.0001 then with_level IDLE 0 e else with_level DECAY l e
  | RELEASE =>
      let l := currentLevel e * releaseCoeff e in
      if Rlt_dec l 0.0001 then with_level IDLE 0 e else with_level RELEASE l e
  | IDLE => e
  end.

Definition process (e : t) : R * t :=
  let e' := step e in (currentLevel e', e').

Definition isActive (e : t) : bool := isNoteOn e.

Fixpoint run (n : nat) (e : t) : t :=
  match n with
  | O => e
  | S n' => snd (process (run n' e))
  end.

(** States the public interface can produce when every sample rate, decay
    time and release time handed to it is positive. *)
Inductive reachable : t -> Prop :=
| r_init : reachable init
| r_setSampleRate sr e : 0 < sr -> reachable e -> reachable (setSampleRate sr e)
| r_setDecay ms e : 0 < ms -> reachable e -> reachable (setDecay ms e)
| r_setRelease ms e : 0 < ms -> reachable e -> reachable (setRelease ms e)
| r_setAttack ms e : reachable e -> reachable (setAttack ms e)
| r_noteOn e : reachable e -> reachable (noteOn e)
| r_noteOff e : reachable e -> reachable (noteOff e)
| r_process e : reachable e -> reachable (snd (process e)).

End AnalogEnvelope.

(** ** DecayEnvelope.h / DecayEnvelope.cpp *)

Module DecayEnvelope.
Import CMath.
Local Open Scope R_scope.

Record t := mk {
  sampleRate : R;
  decayTime : R;
  coeff : R;
  y : R
}.

Definition init : t :=
  {| sampleRate := 44100; decayTime := 200; coeff := 0.99; y := 0 |}.

Definition calculateCoeff (e : t) : t :=
  let dt := if Rlt_dec (decayTime e) 0.1 then 0.1 else decayTime e in
  mk (sampleRate e) dt (expf (-1 / (0.001 * dt * sampleRate e))) (y e).

Definition setSampleRate (sr : R) (e : t) : t :=
  calculateCoeff (mk sr (decayTime e) (coeff e) (y e)).

Definition setDecayTime (ms : R) (e : t) : t :=
  calculateCoeff (mk (sampleRate e) ms (coeff e) (y e)).

Definition trigger (e : t) : t :=
  mk (sampleRate e) (decayTime e) (coeff e) 1.

Definition process (e : t) : R * t :=
  let y' := y e * coeff e in
  (y', mk (sampleRate e) (decayTime e) (coeff e) y').

Definition getCurrentValue (e : t) : R := y e.

Fixpoint run (n : nat) (e : t) : t :=
  match n with
  | O => e
  | S n' => snd (process (run n' e))
  end.

(** States the public interface can produce when every sample rate handed
    to it is positive; the decay time is unrestricted. *)
Inductive reachable : t -> Prop :=
| r_init : reachable init
| r_setSampleRate sr e : 0 < sr -> reachable e -> reachable (setSampleRate sr e)
| r_setDecayTime ms e : reachable e -> reachable (setDecayTime ms e)
| r_trigger e : reachable e -> reachable (trigger e)
| r_process e : reachable e -> reachable (snd (process e)).

End DecayEnvelope.

(** ** The effect units

    [LeakyIntegrator], [DCBlocker], [Distortion] and [StereoDelay] are read
    in exact arithmetic as well; [std::tanh] is the hyperbolic tangent. *)

(** *** LeakyIntegrator.h / LeakyIntegrator.cpp *)

Module LeakyIntegrator.
Import CMath.
Local Open Scope R_scope.

Record t := mk {
  sampleRate : R;
  tau : R;
  c : R;
  y : R
}.

Definition init : t :=
  {| sampleRate := 44100; tau := 15; c := 0.1; y := 0 |}.

Definition calculateCoeff (e : t) : t :=
  mk (sampleRate e) (tau e)
     (if Rle_dec (tau e) 0 then 1
      else 1 - expf (-1 / (0.001 * tau e * sampleRate e)))
     (y e).

Definition setSampleRate (sr : R) (e : t) : t :=
  calculateCoeff (mk sr (tau e) (c e) (y e)).


Definition process (e : t) (input : R) : R * t :=
  let y' := y e + c e * (input - y e) in
  (y', mk (sampleRate e) (tau e) (c e) y').

Definition reset (e : t) : t := mk (sampleRate e) (tau e) (c e) 0.

(** [n] calls of [process] with the same input. *)
Fixpoint hold (n : nat) (x : R) (e : t) : t :=
  match n with
  | O => e
  | S n' => snd (process (hold n' x e) x)
  end.

End LeakyIntegrator.

(** *** DCBlocker.h / DCBlocker.cpp *)

Module DCBlocker.
Import CMath.
Local Open Scope R_scope.

(** [M_PI] of <cmath>, the literal as written there. *)
Definition M_PI : R := 3.14159265358979323846.

Record t := mk {
  sampleRate : R;
  cutoff : R;
  R_ : R;
  lastInput : R;
  lastOutput : R;
  lpfState : R;
  alpha : R
}.

Definition init : t :=
  {| sampleRate := 44100; cutoff := 25; R_ := 0.995; lastInput := 0;
     lastOutput := 0; lpfState := 0; alpha := 0.1 |}.

Definition calculateCoeff (b : t) : t :=
  mk (sampleRate b) (cutoff b)
     (1 - (2 * M_PI * cutoff b / sampleRate b))
     (lastInput b) (lastOutput b) (lpfState b)
     (1 - expf (-2 * M_PI * cutoff b / sampleRate b)).

Definition setSampleRate (sr : R) (b : t) : t :=
  calculateCoeff (mk sr (cutoff b) (R_ b) (lastInput b) (lastOutput b)
                     (lpfState b) (alpha b)).

Definition setCutoff (hz : R) (b : t) : t :=
  calculateCoeff (mk (sampleRate b) hz (R_ b) (lastInput b) (lastOutput b)
                     (lpfState b) (alpha b)).

Definition process (b : t) (input : R) : R * t :=
  let output := input - lastInput b + R_ b * lastOutput b in
  (output,
   mk (sampleRate b) (cutoff b) (R_ b) input output (lpfState b) (alpha b)).


(** [n] calls of [process] / [processHPF] with the same input. *)
Fixpoint hold (n : nat) (x : R) (b : t) : t :=
  match n with
  | O => b
  | S n' => snd (process (hold n' x b) x)
  end.


End DCBlocker.

(** *** Distortion.h / Distortion.cpp *)

Module Distortion.
Import CMath.
Local Open Scope R_scope.

Inductive Type_ := SOFT_CLIP | HARD_CLIP | WAVEFOLDER | DIODE_CLIPPER | WAVENET_TUBE.

Record t := mk {
  type : Type_;
  amount : R;
  mix : R;
  enabled : bool
}.

Definition init : t :=
  {| type := SOFT_CLIP; amount := 0; mix := 1; enabled := false |}.

Definition setType (ty : Type_) (d : t) : t :=
  mk ty (amount d) (mix d) (enabled d).

Definition setAmount (amt : R) (d : t) : t :=
  mk (type d) amt (mix d) (enabled d).

Definition setMix (m : R) (d : t) : t :=
  mk (type d) (amount d) (Rmax 0 (Rmin 1 m)) (enabled d).

Definition setEnabled (e : bool) (d : t) : t :=
  mk (type d) (amount d) (mix d) e.

Definition processSoftClip (x drive : R) : R := tanh (x * drive).

Definition processHardClip (x drive : R) : R :=
  let val := x * drive in
  Rmax (-1) (Rmin 1 val).

Definition processWavefolder (x drive : R) : R :=
  let val := x * drive in
  let val := if Rlt_dec 1 val then 2 - val
             else if Rlt_dec val (-1) then -2 - val else val in
  Rmax (-1) (Rmin 1 val).

Definition processDiode (x drive : R) : R :=
  let val := x * drive in
  if Rle_dec 0 val then tanh val else tanh (val * 0.5) * 2.

Definition processWaveNet (x drive : R) : R :=
  let val := x * drive in
  let val := if Rlt_dec 1 val then 1 else val in
  let val := if Rlt_dec val (-1) then -1 else val in
  let out := val - 0.2 * val * val in
  tanh out * 1.2.

(** The wet signal [process] selects with its [switch]. *)
Definition wet (d : t) (input drive : R) : R :=
  match type d with
  | SOFT_CLIP => processSoftClip input drive
  | HARD_CLIP => processHardClip input drive
  | WAVEFOLDER => processWavefolder input drive
  | DIODE_CLIPPER => processDiode input drive
  | WAVENET_TUBE => processWaveNet input drive
  end.

Definition process (d : t) (input : R) : R :=
  if negb (enabled d) || (if Rle_dec (amount d) 0.01 then true else false)
  then input
  else
    let drive := 1 + amount d * 9 in
    let wetSignal := wet d input drive in
    (1 - mix d) * input + mix d * wetSignal.

(** States the setters produce. *)
Inductive reachable : t -> Prop :=
| r_init : reachable init
| r_setType ty d : reachable d -> reachable (setType ty d)
| r_setAmount a d : reachable d -> reachable (setAmount a d)
| r_setMix m d : reachable d -> reachable (setMix m d)
| r_setEnabled e d : reachable d -> reachable (setEnabled e d).

End Distortion.

(** *** StereoDelay.h / StereoDelay.cpp

    The two [std::vector<float>] buffers are lists; [operator[]] outside
    the vector is undefined behaviour and is [None] here, as is a [resize]
    to a negative length.  An [int] is an integer of [Z]: with
    [maxDelaySamples >= 0] the sums and differences below stay between
    [-maxDelaySamples - 10000] and [maxDelaySamples], so no wrap-around is
    written out. *)

Module StereoDelay.
Import CMath.
Local Open Scope R_scope.

Record t := mk {
  bufferL : list R;
  bufferR : list R;
  maxDelaySamples : Z;
  writeIndex : Z;
  sampleRate : R;
  delaySamplesL : Z;
  delaySamplesR : Z;
  feedback : R;
  mix : R
}.

(** The constructor: nothing is allocated. *)
Definition new (maxDelay : Z) : t :=
  {| bufferL := nil; bufferR := nil; maxDelaySamples := maxDelay;
     writeIndex := 0%Z; sampleRate := 44100; delaySamplesL := 10000%Z;
     delaySamplesR := 10000%Z; feedback := 0.3; mix := 0.3 |}.

(** [v.resize(n, 0.0f)] *)
Definition resize (n : nat) (v : list R) : list R :=
  firstn n v ++ repeat 0 (n - length v).

(** [v[i]] as an rvalue. *)
Definition get (v : list R) (i : Z) : option R :=
  if ((0 <=? i) && (i <? Z.of_nat (length v)))%Z
  then nth_error v (Z.to_nat i) else None.

Fixpoint update (v : list R) (i : nat) (x : R) : list R :=
  match v, i with
  | nil, _ => nil
  | _ :: v', O => x :: v'
  | a :: v', S i' => a :: update v' i' x
  end.

(** [v[i] = x] *)
Definition put (v : list R) (i : Z) (x : R) : option (list R) :=
  if ((0 <=? i) && (i <? Z.of_nat (length v)))%Z
  then Some (update v (Z.to_nat i) x) else None.

Definition begin (d : t) : option (bool * t) :=
  if (maxDelaySamples d <? 0)%Z then None
  else
    let n := Z.to_nat (maxDelaySamples d) in
    let bl := resize n (bufferL d) in
    let br := resize n (bufferR d) in
    Some ((Z.of_nat (length bl) =? maxDelaySamples d)%Z
          && (Z.of_nat (length br) =? maxDelaySamples d)%Z,
          mk bl br (maxDelaySamples d) (writeIndex d) (sampleRate d)
             (delaySamplesL d) (delaySamplesR d) (feedback d) (mix d)).

Definition setSampleRate (sr : R) (d : t) : t :=
  mk (bufferL d) (bufferR d) (maxDelaySamples d) (writeIndex d) sr
     (delaySamplesL d) (delaySamplesR d) (feedback d) (mix d).

Definition setTimeSamplesL (samples : Z) (d : t) : t :=
  mk (bufferL d) (bufferR d) (maxDelaySamples d) (writeIndex d) (sampleRate d)
     (Z.max 1 (Z.min samples (maxDelaySamples d - 1))) (delaySamplesR d)
     (feedback d) (mix d).

Definition setTimeSamplesR (samples : Z) (d : t) : t :=
  mk (bufferL d) (bufferR d) (maxDelaySamples d) (writeIndex d) (sampleRate d)
     (delaySamplesL d) (Z.max 1 (Z.min samples (maxDelaySamples d - 1)))
     (feedback d) (mix d).

Definition setFeedback (fb : R) (d : t) : t :=
  mk (bufferL d) (bufferR d) (maxDelaySamples d) (writeIndex d) (sampleRate d)
     (delaySamplesL d) (delaySamplesR d) (Rmax 0 (Rmin fb 1.1)) (mix d).

Definition setMix (m : R) (d : t) : t :=
  mk (bufferL d) (bufferR d) (maxDelaySamples d) (writeIndex d) (sampleRate d)
     (delaySamplesL d) (delaySamplesR d) (feedback d) (Rmax 0 (Rmin m 1)).

(** [readIndex = writeIndex - delay; if (readIndex < 0) readIndex +=
    maxDelaySamples]. *)
Definition readIndex (d : t) (delay : Z) : Z :=
  let r := (writeIndex d - delay)%Z in
  if (r <? 0)%Z then (r + maxDelaySamples d)%Z else r.

Definition is_empty (v : list R) : bool :=
  match v with nil => true | _ => false end.

Definition processL (d : t) (input : R) : option R :=
  if is_empty (bufferL d) then Some input
  else
    match get (bufferL d) (readIndex d (delaySamplesL d)) with
    | Some delayed => Some ((1 - mix d) * input + mix d * delayed)
    | None => None
    end.

Definition processR (d : t) (input : R) : option R :=
  if is_empty (bufferR d) then Some input
  else
    match get (bufferR d) (readIndex d (delaySamplesR d)) with
    | Some delayed => Some ((1 - mix d) * input + mix d * delayed)
    | None => None
    end.

Definition tick (d : t) (inL inR : R) : option t :=
  if is_empty (bufferL d) || is_empty (bufferR d) then Some d
  else
    match get (bufferL d) (readIndex d (delaySamplesL d)),
          get (bufferR d) (readIndex d (delaySamplesR d)) with
    | Some delayedL, Some delayedR =>
        let nextL := tanh (inL + delayedL * feedback d) in
        let nextR := tanh (inR + delayedR * feedback d) in
        match put (bufferL d) (writeIndex d) nextL,
              put (bufferR d) (writeIndex d) nextR with
        | Some bl, Some br =>
            let w := (writeIndex d + 1)%Z in
            Some (mk bl br (maxDelaySamples d)
                     (if (maxDelaySamples d <=? w)%Z then 0%Z else w)
                     (sampleRate d) (delaySamplesL d) (delaySamplesR d)
                     (feedback d) (mix d))
        | _, _ => None
        end
    | _, _ => None
    end.

(** Consecutive [tick] calls, one per frame [(inL, inR)]. *)
Fixpoint ticks (d : t) (frames : list (R * R)) : option t :=
  match frames with
  | nil => Some d
  | (l, r) :: rest =>
      match tick d l r with
      | Some d' => ticks d' rest
      | None => None
      end
  end.

End StereoDelay.

(* ================================================================== *)
(** * Part II: bit-accurate reading                                     *)
(* ================================================================== *)

(** ** IEEE-754 binary32 / binary64 arithmetic *)

Module IEEE.
Local Open Scope Z_scope.

(** [float] is binary32 (24-bit significand), [double] is binary64. *)
Definition float := spec_float.
Definition double := spec_float.

(** The decimal literal [m * 10^-k], correctly rounded to the format. *)
Definition decimal (prec emax : Z) (m : Z) (k : nat) : spec_float :=
  let d := S754_finite false (Pos.pow 10 (Pos.of_nat k)) 0 in
  match k, m with
  | _, Z0 => S754_zero false
  | O, Zpos p => binary_round prec emax false p 0
  | O, Zneg p => binary_round prec emax true p 0
  | S _, Zpos p => SFdiv prec emax (S754_finite false p 0) d
  | S _, Zneg p => SFdiv prec emax (S754_finite true p 0) d
  end.

Definition decf : Z -> nat -> float := decimal 24 128.
Definition decd : Z -> nat -> double := decimal 53 1024.

(** Conversion between formats: exact when widening, rounding when
    narrowing. *)
Definition convert (prec emax : Z) (x : spec_float) : spec_float :=
  match x with
  | S754_finite s m e => binary_round prec emax s m e
  | _ => x
  end.

Definition to_double : float -> double := convert 53 1024.
Definition to_float : double -> float := convert 24 128.

Definition fadd : float -> float -> float := SFadd 24 128.
Definition fsub : float -> float -> float := SFsub 24 128.
Definition fmul : float -> float -> float := SFmul 24 128.
Definition fdiv : float -> float -> float := SFdiv 24 128.
Definition fneg : float -> float := SFopp.
Definition dmul : double -> double -> double := SFmul 53 1024.
Definition ddiv : double -> double -> double := SFdiv 53 1024.

Definition fltb : float -> float -> bool := SFltb.
Definition fleb : float -> float -> bool := SFleb.

Definition is_nan (x : spec_float) : bool :=
  match x with S754_nan => true | _ => false end.

(** [std::isfinite] *)
Definition is_finite (x : spec_float) : bool :=
  match x with S754_zero _ | S754_finite _ _ _ => true | _ => false end.

(** [std::fmax] / [std::fmin]: the larger / smaller argument; a NaN
    argument is treated as missing data and the other one is returned. *)
Definition fmaxf (x y : float) : float :=
  match SFcompare x y with
  | Some Lt => y
  | Some _ => x
  | None => if is_nan x then y else x
  end.

Definition fminf (x y : float) : float :=
  match SFcompare x y with
  | Some Gt => y
  | Some _ => x
  | None => if is_nan x then y else x
  end.

(** [M_PI] of <cmath>: the [double] literal 3.14159265358979323846. *)
Definition M_PI : double := decd 314159265358979323846 20.

Arguments decimal : simpl never.
Arguments decf : simpl never.
Arguments decd : simpl never.
Arguments convert : simpl never.
Arguments to_double : simpl never.
Arguments to_float : simpl never.
Arguments fadd : simpl never.
Arguments fsub : simpl never.
Arguments fmul : simpl never.
Arguments fdiv : simpl never.
Arguments fneg : simpl never.
Arguments dmul : simpl never.
Arguments ddiv : simpl never.
Arguments fltb : simpl never.
Arguments fleb : simpl never.
Arguments fmaxf : simpl never.
Arguments fminf : simpl never.
Arguments M_PI : simpl never.

End IEEE.

Declare Scope f32_scope.
Delimit Scope f32_scope with f32.
Infix "+" := IEEE.fadd : f32_scope.
Infix "-" := IEEE.fsub : f32_scope.
Infix "*" := IEEE.fmul : f32_scope.
Infix "/" := IEEE.fdiv : f32_scope.
Notation "- x" := (IEEE.fneg x) : f32_scope.

(** ** Filter303.h / Filter303.cpp *)

Module Filter303.
Import IEEE.
Local Open Scope f32_scope.

Record t := mk {
  sampleRate : float;
  cutoff : float;
  resonance : float;
  envMod : float;
  accentMod : float;
  fmAmount : float;
  y1 : float;
  y2 : float;
  y3 : float;
  y4 : float;
  jc_b0 : float;
  jc_k : float;
  jc_g : float;
  hp_state : float;
  hp_cutoff : float;
  hp_coeff : float
}.

Definition zero : float := S754_zero false.

(** The constructor [Filter303(float sr)] with the in-class initialisers. *)
Definition new (sr : float) : t :=
  {| sampleRate := sr; cutoff := decf 1000 0; resonance := zero;
     envMod := zero; accentMod := zero; fmAmount := zero;
     y1 := zero; y2 := zero; y3 := zero; y4 := zero;
     jc_b0 := zero; jc_k := zero; jc_g := zero;
     hp_state := zero; hp_cutoff := decf 150 0; hp_coeff := zero |}.

(** The inputs of one [process] call: input, env, accentEnv, fmInput. *)
Record sample := mk_sample {
  s_input : float;
  s_env : float;
  s_accentEnv : float;
  s_fmInput : float
}.

Section WithExp.

(** [std::exp] on [float], supplied by the C library. *)
Variable expf : float -> float.

Definition updateCoefficients (f : t) : t :=
  let w_hp :=
    to_float (dmul (dmul (to_double (decf 2 0)) M_PI) (to_double (hp_cutoff f))) in
  mk (sampleRate f) (cutoff f) (resonance f) (envMod f) (accentMod f)
     (fmAmount f) (y1 f) (y2 f) (y3 f) (y4 f) (jc_b0 f) (jc_k f) (jc_g f)
     (hp_state f) (hp_cutoff f)
     (expf (- w_hp / sampleRate f)).

Definition setCutoff (freq : float) (f : t) : t :=
  updateCoefficients
    (mk (sampleRate f) freq (resonance f) (envMod f) (accentMod f)
        (fmAmount f) (y1 f) (y2 f) (y3 f) (y4 f) (jc_b0 f) (jc_k f) (jc_g f)
        (hp_state f) (hp_cutoff f) (hp_coeff f)).

Definition setResonance (res : float) (f : t) : t :=
  mk (sampleRate f) (cutoff f) (fmaxf zero res) (envMod f) (accentMod f)
     (fmAmount f) (y1 f) (y2 f) (y3 f) (y4 f) (jc_b0 f) (jc_k f) (jc_g f)
     (hp_state f) (hp_cutoff f) (hp_coeff f).

Definition setEnvMod (amount : float) (f : t) : t :=
  mk (sampleRate f) (cutoff f) (resonance f) amount (accentMod f)
     (fmAmount f) (y1 f) (y2 f) (y3 f) (y4 f) (jc_b0 f) (jc_k f) (jc_g f)
     (hp_state f) (hp_cutoff f) (hp_coeff f).

Definition setFMAmount (amount : float) (f : t) : t :=
  mk (sampleRate f) (cutoff f) (resonance f) (envMod f) (accentMod f)
     amount (y1 f) (y2 f) (y3 f) (y4 f) (jc_b0 f) (jc_k f) (jc_g f)
     (hp_state f) (hp_cutoff f) (hp_coeff f).

Definition getCutoff (f : t) : float := cutoff f.
Definition getEnvMod (f : t) : float := envMod f.

(** The envelope-modulation offset of [process], before FM. *)
Definition envOffset (f : t) (env : float) : float :=
  fminf (fmaxf (envMod f * env) (decf (-95) 2 * cutoff f))
        (decf 4 0 * cutoff f).

(** The offset after the optional FM term. *)
Definition modAmt (f : t) (env fmInput : float) : float :=
  if fltb (decf 1 3) (fmAmount f)
  then envOffset f env + fmAmount f * fmInput * decf 5 1 * cutoff f
  else envOffset f env.

(** The modulated, clamped cutoff of [process]. *)
Definition modCutoff (f : t) (env fmInput : float) : float :=
  fminf (fmaxf (cutoff f + modAmt f env fmInput) (decf 5 0))
        (decf 45 2 * sampleRate f).

(** The coefficients [(b0, k, g)] of [process], resonance applied. *)
Definition coefficients (f : t) (mc : float) : float * float * float :=
  let two_pi := dmul (to_double (decf 2 0)) M_PI in
  let wc := to_float (ddiv (dmul two_pi (to_double mc)) (to_double (sampleRate f))) in
  let fx := to_float (ddiv (to_double (wc * decf 70710678 8)) two_pi) in
  let b0 := (decf 45522346 11 + decf 61922189 7 * fx)
            / (decf 1 0 + decf 12358354 6 * fx + decf 44156345 7 * (fx * fx)) in
  let k := fx*(fx*(fx*(fx*(fx*(fx + decf 71986997 4) - decf 58377917 4)
               - decf 47647308 5) + decf 61495611 5) + decf 21387126 5)
           + decf 16998792 6 in
  let g := to_float (dmul (to_double k)
                          (decd 58823529411764705882352941176471 33)) in
  let r_skew := (decf 1 0 - expf (decf (-3) 0 * resonance f)) / decf 9502129316 10 in
  let g := (g - decf 1 0) * r_skew + decf 1 0 in
  let g := g * (decf 1 0 + r_skew) in
  let k := k * r_skew in
  (b0, k, g).

(** [processFeedbackHPF]: the new [hp_state] and the value returned. *)
Definition processFeedbackHPF (f : t) (input : float) : float * float :=
  let hp := hp_state f + (decf 1 0 - hp_coeff f) * (input - hp_state f) in
  (hp, input - hp).

(** The feedback and ladder update of [process] for given coefficients. *)
Definition ladder (f : t) (input : float) (c : float * float * float)
  : float * t :=
  let '(b0, k, g) := c in
  let '(hp, feedback) := processFeedbackHPF f (k * y4 f) in
  let y0 := input - feedback in
  let y1' := y1 f + decf 2 0 * b0 * (y0 - y1 f + y2 f) in
  let y2' := y2 f + b0 * (y1' - decf 2 0 * y2 f + y3 f) in
  let y3' := y3 f + b0 * (y2' - decf 2 0 * y3 f + y4 f) in
  let y4' := y4 f + b0 * (y3' - decf 2 0 * y4 f) in
  (decf 2 0 * g * y4',
   mk (sampleRate f) (cutoff f) (resonance f) (envMod f) (accentMod f)
      (fmAmount f) y1' y2' y3' y4' (jc_b0 f) (jc_k f) (jc_g f)
      hp (hp_cutoff f) (hp_coeff f)).

Definition process (f : t) (s : sample) : float * t :=
  ladder f (s_input s) (coefficients f (modCutoff f (s_env s) (s_fmInput s))).

(** Consecutive [process] calls: the samples returned, in order, and the
    final state. *)
Fixpoint run (f : t) (ss : list sample) : list float * t :=
  match ss with
  | nil => (nil, f)
  | s :: ss' =>
      let '(out, f') := process f s in
      let '(outs, f'') := run f' ss' in
      (out :: outs, f'')
  end.

End WithExp.

End Filter303.

(* ================================================================== *)
(** * Part III: the ladder filter (binary32)                            *)
(* ================================================================== *)

Module Filter303Facts.
Import IEEE Filter303.
Local Open Scope f32_scope.

(** *** Order facts of IEEE comparison *)

Lemma SFcompare_refl (x : float) :
  is_nan x = false -> SFcompare x x = Some Eq.
Proof.
  destruct x as [s | s | | s m e]; simpl; intros H; try discriminate;
    try (destruct s; reflexivity).
  destruct s; rewrite Z.compare_refl, Pos.compare_cont_refl; reflexivity.
Qed.

Lemma SFcompare_antisym (x y : float) :
  SFcompare y x = option_map CompOpp (SFcompare x y).
Proof.
  destruct x as [sx | sx | | sx mx ex], y as [sy | sy | | sy my ey]; simpl;
    try reflexivity; try (destruct sx; reflexivity);
    try (destruct sy; reflexivity);
    try (destruct sx, sy; reflexivity).
  destruct sx, sy; try reflexivity; f_equal;
    rewrite (Z.compare_antisym ex ey);
    destruct (ex ?= ey)%Z; simpl; try reflexivity;
    rewrite (Pos.compare_cont_antisym mx my Eq); simpl;
    try rewrite CompOpp_involutive; reflexivity.
Qed.

Lemma SFcompare_None (x y : float) :
  SFcompare x y = None -> is_nan x = true \/ is_nan y = true.
Proof.
  destruct x as [sx | sx | | sx mx ex], y as [sy | sy | | sy my ey]; simpl;
    intros H; try discriminate; auto.
Qed.

Lemma fleb_refl (x : float) : is_nan x = false -> fleb x x = true.
Proof.
  intros H. unfold fleb, SFleb. now rewrite SFcompare_refl.
Qed.

Lemma fleb_not_nan (x y : float) :
  fleb x y = true -> is_nan x = false /\ is_nan y = false.
Proof.
  unfold fleb, SFleb.
  destruct x as [sx | sx | | sx mx ex], y as [sy | sy | | sy my ey]; simpl;
    intros H; try discriminate; auto.
Qed.

(** [fmaxf x lo] is never below a non-NaN [lo]. *)
Lemma fmaxf_lower (x lo : float) :
  is_nan lo = false -> fleb lo (fmaxf x lo) = true.
Proof.
  intros Hlo. unfold fmaxf.
  destruct (SFcompare x lo) as [c |] eqn:Hc.
  - destruct c; try (now apply fleb_refl);
      unfold fleb, SFleb; rewrite SFcompare_antisym, Hc; reflexivity.
  - destruct (SFcompare_None _ _ Hc) as [Hx | Hx].
    + rewrite Hx. now apply fleb_refl.
    + congruence.
Qed.

(** [fminf v hi] never exceeds a non-NaN [hi], and stays above any bound
    that both arguments respect. *)
Lemma fminf_upper (v hi : float) :
  is_nan hi = false -> is_nan v = false -> fleb (fminf v hi) hi = true.
Proof.
  intros Hhi Hv. unfold fminf.
  destruct (SFcompare v hi) as [c |] eqn:Hc.
  - destruct c; try (now apply fleb_refl);
      unfold fleb, SFleb; rewrite Hc; reflexivity.
  - destruct (SFcompare_None _ _ Hc); congruence.
Qed.

Lemma fminf_lower (lo v hi : float) :
  fleb lo v = true -> fleb lo hi = true -> fleb lo (fminf v hi) = true.
Proof.
  intros Hv Hhi. unfold fminf.
  destruct (SFcompare v hi) as [c |] eqn:Hc.
  - destruct c; assumption.
  - destruct (is_nan v); assumption.
Qed.

(** The clamp idiom [fmin(fmax(x, lo), hi)] lands in [[lo, hi]] whenever
    that interval is not empty, whatever [x] is (NaN included). *)
Lemma clamp_bounds (x lo hi : float) :
  fleb lo hi = true ->
  fleb lo (fminf (fmaxf x lo) hi) = true /\
  fleb (fminf (fmaxf x lo) hi) hi = true.
Proof.
  intros H. destruct (fleb_not_nan _ _ H) as [Hlo Hhi].
  pose proof (fmaxf_lower x lo Hlo) as Hv.
  split.
  - now apply fminf_lower.
  - apply fminf_upper; [assumption | now apply (fleb_not_nan _ _ Hv)].
Qed.

(** *** What [process] leaves untouched *)

Lemma ladder_frame (f : t) (input : float) (c : float * float * float) :
  let f' := snd (ladder f input c) in
  sampleRate f' = sampleRate f /\ cutoff f' = cutoff f /\
  resonance f' = resonance f /\ envMod f' = envMod f /\
  accentMod f' = accentMod f /\ fmAmount f' = fmAmount f /\
  jc_b0 f' = jc_b0 f /\ jc_k f' = jc_k f /\ jc_g f' = jc_g f /\
  hp_cutoff f' = hp_cutoff f /\ hp_coeff f' = hp_coeff f.
Proof.
  destruct c as [[b0 k] g]. unfold ladder, processFeedbackHPF.
  cbv zeta. cbn [snd]. repeat split; reflexivity.
Qed.

Section WithExp.
Variable expf : float -> float.

Lemma process_frame (f : t) (s : sample) :
  let f' := snd (process expf f s) in
  sampleRate f' = sampleRate f /\ cutoff f' = cutoff f /\
  resonance f' = resonance f /\ envMod f' = envMod f /\
  accentMod f' = accentMod f /\ fmAmount f' = fmAmount f /\
  jc_b0 f' = jc_b0 f /\ jc_k f' = jc_k f /\ jc_g f' = jc_g f /\
  hp_cutoff f' = hp_cutoff f /\ hp_coeff f' = hp_coeff f.
Proof. unfold process. apply ladder_frame. Qed.

Lemma run_cons (f : t) (s : sample) (ss : list sample) :
  run expf f (s :: ss) =
  (fst (process expf f s) :: fst (run expf (snd (process expf f s)) ss),
   snd (run expf (snd (process expf f s)) ss)).
Proof.
  cbn [run]. destruct (process expf f s) as [out f']. cbn [fst snd].
  destruct (run expf f' ss) as [outs f'']. reflexivity.
Qed.

Lemma run_frame (ss : list sample) : forall f : t,
  let f' := snd (run expf f ss) in
  sampleRate f' = sampleRate f /\ cutoff f' = cutoff f /\
  resonance f' = resonance f /\ envMod f' = envMod f /\
  fmAmount f' = fmAmount f /\ hp_coeff f' = hp_coeff f.
Proof.
  induction ss as [| s ss IH]; intros f.
  - cbn [run snd]. repeat split; reflexivity.
  - rewrite run_cons. cbn [snd].
    destruct (IH (snd (process expf f s))) as (H1 & H2 & H3 & H4 & H5 & H6).
    destruct (process_frame f s) as (G1 & G2 & G3 & G4 & _ & G6 & _ & _ & _ & _ & G11).
    cbv zeta in *. repeat split; congruence.
Qed.

End WithExp.

End Filter303Facts.

Section FilterClaims.
Import IEEE Filter303 Filter303Facts.
Local Open Scope f32_scope.

(** C10. [process] writes only [y1..y4] and [hp_state]: every configured
    parameter ([sampleRate], [cutoff], [resonance], [envMod], [accentMod],
    [fmAmount]) and every other member is the same after the call, so after
    any number of processed samples [getCutoff] and [getEnvMod] still return
    exactly the values last given to [setCutoff] and [setEnvMod]. *)
Theorem process_preserves_parameters :
  forall (expf : float -> float),
    (forall (f : Filter303.t) (s : sample),
        let f' := snd (Filter303.process expf f s) in
        Filter303.sampleRate f' = Filter303.sampleRate f /\
        cutoff f' = cutoff f /\ resonance f' = resonance f /\
        envMod f' = envMod f /\ accentMod f' = accentMod f /\
        fmAmount f' = fmAmount f /\
        jc_b0 f' = jc_b0 f /\ jc_k f' = jc_k f /\ jc_g f' = jc_g f /\
        hp_cutoff f' = hp_cutoff f /\ hp_coeff f' = hp_coeff f) /\
    (forall (f : Filter303.t) (c : float) (ss : list sample),
        getCutoff (snd (Filter303.run expf (setCutoff expf c f) ss)) = c) /\
    (forall (f : Filter303.t) (a : float) (ss : list sample),
        getEnvMod (snd (Filter303.run expf (setEnvMod a f) ss)) = a) /\
    (forall (f : Filter303.t) (c a : float) (ss : list sample),
        let f' := snd (Filter303.run expf (setEnvMod a (setCutoff expf c f)) ss) in
        getCutoff f' = c /\ getEnvMod f' = a).
Proof.
  intros expf. split; [| split; [| split]].
  - intros f s. apply process_frame.
  - intros f c ss. unfold getCutoff.
    destruct (run_frame expf ss (setCutoff expf c f)) as (_ & H & _).
    cbv zeta in H. rewrite H. reflexivity.
  - intros f a ss. unfold getEnvMod.
    destruct (run_frame expf ss (setEnvMod a f)) as (_ & _ & _ & H & _).
    cbv zeta in H. rewrite H. reflexivity.
  - intros f c a ss. unfold getCutoff, getEnvMod.
    destruct (run_frame expf ss (setEnvMod a (setCutoff expf c f)))
      as (_ & H1 & _ & H2 & _).
    cbv zeta in H1, H2. rewrite H1, H2. split; reflexivity.
Qed.

(** The modulation offset is the clamp idiom applied to [envMod * env];
    for a cutoff that makes [[-0.95*cutoff, 4*cutoff]] a non-empty interval
    the offset lies in it. *)
Lemma envOffset_bounds (f : Filter303.t) (env : float) :
  fleb (decf (-95) 2 * cutoff f) (decf 4 0 * cutoff f) = true ->
  fleb (decf (-95) 2 * cutoff f) (envOffset f env) = true /\
  fleb (envOffset f env) (decf 4 0 * cutoff f) = true.
Proof. intros H. unfold envOffset. now apply clamp_bounds. Qed.

(** The upper clamp alone needs only a sample rate that is a number. *)
Lemma modCutoff_upper (f : Filter303.t) (env fmInput : float) :
  is_nan (decf 45 2 * Filter303.sampleRate f) = false ->
  fleb (modCutoff f env fmInput) (decf 45 2 * Filter303.sampleRate f) = true.
Proof.
  intros H. unfold modCutoff. apply fminf_upper; [assumption |].
  apply (fleb_not_nan (decf 5 0)). now apply fmaxf_lower.
Qed.

(** C8 (as the code has it).  In every [process] call the envelope offset
    is [fmin(fmax(envMod*env, -0.95*cutoff), 4*cutoff)], the FM term
    [fmAmount*fmInput*0.5*cutoff] is added when [fmAmount > 0.001], the
    modulated cutoff is [fmin(fmax(cutoff + offset, 5), 0.45*sampleRate)],
    and the coefficients are computed from that value only.  Whenever
    [5 <= 0.45*sampleRate] the modulated cutoff lies in
    [[5, 0.45*sampleRate]], whatever the other values are. *)
Theorem modCutoff_clamped :
  forall (expf : float -> float) (f : Filter303.t) (s : sample),
    fleb (decf 5 0) (decf 45 2 * Filter303.sampleRate f) = true ->
    let env := s_env s in
    let fm := s_fmInput s in
    envOffset f env =
      fminf (fmaxf (envMod f * env) (decf (-95) 2 * cutoff f))
            (decf 4 0 * cutoff f) /\
    modAmt f env fm =
      (if fltb (decf 1 3) (fmAmount f)
       then envOffset f env + fmAmount f * fm * decf 5 1 * cutoff f
       else envOffset f env) /\
    modCutoff f env fm =
      fminf (fmaxf (cutoff f + modAmt f env fm) (decf 5 0))
            (decf 45 2 * Filter303.sampleRate f) /\
    Filter303.process expf f s =
      ladder f (s_input s) (coefficients expf f (modCutoff f env fm)) /\
    fleb (decf 5 0) (modCutoff f env fm) = true /\
    fleb (modCutoff f env fm) (decf 45 2 * Filter303.sampleRate f) = true.
Proof.
  intros expf f s H env fm.
  repeat (split; [reflexivity |]).
  unfold modCutoff. now apply clamp_bounds.
Qed.

(** At 44100 Hz the clamp interval is [[5, 19845]]. *)
Lemma modCutoff_clamped_witness :
  fleb (decf 5 0) (decf 45 2 * decf 44100 0) = true /\
  fleb (decf 5 0)
       (modCutoff (Filter303.new (decf 44100 0)) (decf 1 0) zero) = true /\
  fleb (modCutoff (Filter303.new (decf 44100 0)) (decf 1 0) zero)
       (decf 45 2 * decf 44100 0) = true.
Proof.
  split; [vm_compute; reflexivity |].
  apply (modCutoff_clamped (fun x => x) (Filter303.new (decf 44100 0))
           (mk_sample zero (decf 1 0) zero zero)).
  vm_compute; reflexivity.
Defined.

(** With a sample rate of 10 Hz the upper clamp is 4.5 Hz and wins: the
    cutoff handed to the coefficient formulas is below 5 Hz. *)
Lemma modCutoff_below_5Hz :
  modCutoff (Filter303.new (decf 10 0)) zero zero = decf 45 1 /\
  fltb (decf 45 1) (decf 5 0) = true /\
  ~ (forall (f : Filter303.t) (env fmInput : float),
        fleb (decf 5 0) (modCutoff f env fmInput) = true).
Proof.
  split; [vm_compute; reflexivity |].
  split; [vm_compute; reflexivity |].
  intros H. specialize (H (Filter303.new (decf 10 0)) zero zero).
  vm_compute in H. discriminate.
Qed.

(** *** Divergence above the self-oscillation threshold

    Configuration: 44100 Hz, [setCutoff(10000)], [setResonance(2)],
    [setEnvMod(10000)]; every call is [process(1, 1, 0, 0)].  The envelope
    offset drives the modulated cutoff into the upper clamp (19845 Hz),
    where the feedback gain exceeds what the four stages can damp. *)

Definition hot_setup (expf : float -> float) : Filter303.t :=
  setEnvMod (decf 10000 0)
    (setResonance (decf 2 0)
       (setCutoff expf (decf 10000 0) (Filter303.new (decf 44100 0)))).

Definition hot_sample : sample :=
  mk_sample (decf 1 0) (decf 1 0) zero zero.

(** The two arguments [std::exp] is called with in that configuration:
    [-w_hp / sampleRate] in [updateCoefficients] and [-3 * resonance] in
    [process]. *)
Definition exp_arg_hp : float :=
  - to_float (dmul (dmul (to_double (decf 2 0)) M_PI) (to_double (decf 150 0)))
  / decf 44100 0.

Definition exp_arg_res : float := decf (-3) 0 * decf 2 0.

(** [exp(-0.0213714...)] and [exp(-6)] rounded to binary32. *)
Definition exp_val_hp : float := S754_finite false 16422468 (-24).
Definition exp_val_res : float := S754_finite false 10646160 (-32).

(** A [std::exp] that is only specified at those two arguments. *)
Definition exp_table (x : float) : float :=
  if SFeqb x exp_arg_res then exp_val_res else exp_val_hp.

Lemma coefficients_ext (e1 e2 : float -> float) (f : Filter303.t) (mc : float) :
  e1 (decf (-3) 0 * resonance f) = e2 (decf (-3) 0 * resonance f) ->
  coefficients e1 f mc = coefficients e2 f mc.
Proof. intros H. unfold coefficients. rewrite H. reflexivity. Qed.

Lemma run_ext (e1 e2 : float -> float) (ss : list sample) :
  forall f : Filter303.t,
    e1 (decf (-3) 0 * resonance f) = e2 (decf (-3) 0 * resonance f) ->
    Filter303.run e1 f ss = Filter303.run e2 f ss.
Proof.
  induction ss as [| s ss IH]; intros f H; [reflexivity |].
  rewrite !run_cons.
  assert (Hp : Filter303.process e1 f s = Filter303.process e2 f s).
  { unfold Filter303.process. now rewrite (coefficients_ext e1 e2). }
  rewrite Hp. rewrite IH; [reflexivity |].
  destruct (process_frame e2 f s) as (_ & _ & Hr & _).
  cbv zeta in Hr. rewrite Hr. exact H.
Qed.

End FilterClaims.

Section FilterDivergence.
Import IEEE Filter303 Filter303Facts.
Local Open Scope f32_scope.

(** C1 (what the code does).  At 44100 Hz with base cutoff 10 kHz and
    resonance 2, both inside the stated ranges, and an envelope offset that
    reaches the upper cutoff clamp, a constant unit input makes the filter
    diverge: the first 301 samples returned are finite, the 302nd is
    [-infinity], and all four stage accumulators are infinite from then
    on.  [std::exp] is any function returning the correctly rounded values
    at the two arguments it is called with. *)
Theorem filter_diverges_at_resonance_2 :
  forall expf : float -> float,
    expf exp_arg_hp = exp_val_hp ->
    expf exp_arg_res = exp_val_res ->
    let r := Filter303.run expf (hot_setup expf) (repeat hot_sample 302) in
    forallb is_finite (firstn 301 (fst r)) = true /\
    nth 301 (fst r) zero = S754_infinity true /\
    is_finite (y1 (snd r)) = false /\ is_finite (y2 (snd r)) = false /\
    is_finite (y3 (snd r)) = false /\ is_finite (y4 (snd r)) = false.
Proof.
  intros expf Hhp Hres r.
  assert (Hs : hot_setup expf = hot_setup exp_table).
  { unfold hot_setup, setCutoff, updateCoefficients, Filter303.new.
    cbn [Filter303.sampleRate hp_cutoff].
    change (expf (- to_float (dmul (dmul (to_double (decf 2 0)) M_PI)
                                   (to_double (decf 150 0))) / decf 44100 0))
      with (expf exp_arg_hp).
    rewrite Hhp. reflexivity. }
  assert (Hr : r = Filter303.run exp_table (hot_setup exp_table)
                     (repeat hot_sample 302)).
  { unfold r. rewrite Hs. apply run_ext.
    change (decf (-3) 0 * resonance (hot_setup exp_table)) with exp_arg_res.
    rewrite Hres. reflexivity. }
  rewrite Hr. vm_compute. repeat split; reflexivity.
Qed.

(** The hypotheses are met by the tabulated exponential. *)
Lemma filter_diverges_at_resonance_2_witness :
  exp_table exp_arg_hp = exp_val_hp /\
  exp_table exp_arg_res = exp_val_res /\
  nth 301 (fst (Filter303.run exp_table (hot_setup exp_table)
                  (repeat hot_sample 302))) zero = S754_infinity true.
Proof.
  split; [vm_compute; reflexivity |].
  split; [vm_compute; reflexivity |].
  apply (filter_diverges_at_resonance_2 exp_table); vm_compute; reflexivity.
Defined.

End FilterDivergence.

Section FilterProperties.
Import IEEE Filter303 Filter303Facts.
Local Open Scope f32_scope.

(** X21. [setResonance] never stores a negative value or a NaN: the
    stored resonance is at least 0 for every argument, NaN and the
    infinities included; an argument above 0 is stored as given and any
    other argument is stored as 0. *)
Theorem setResonance_is_never_negative :
  forall (res : float) (f : Filter303.t),
    fleb zero (resonance (setResonance res f)) = true /\
    is_nan (resonance (setResonance res f)) = false /\
    resonance (setResonance res f) = (if fltb zero res then res else zero).
Proof.
  intros res f. cbn [resonance setResonance].
  assert (H : fmaxf zero res = (if fltb zero res then res else zero)).
  { unfold fmaxf, fltb, SFltb.
    destruct (SFcompare zero res) as [[| |] |]; reflexivity. }
  rewrite H. unfold fltb, SFltb, fleb, SFleb.
  destruct (SFcompare zero res) as [[| |] |] eqn:E; try rewrite E;
    repeat split; try reflexivity.
  destruct res; try reflexivity; discriminate.
Qed.

(** X22. The modulated cutoff cannot be poisoned.  Whenever
    [0.45 * sampleRate] is a number, the cutoff handed to the coefficient
    formulas is a number not above it, whatever [cutoff], [envMod], the
    envelope value, [fmAmount] and the FM input are: NaN and the
    infinities included. *)
Theorem modCutoff_is_a_bounded_number :
  forall (f : Filter303.t) (env fmInput : float),
    is_nan (decf 45 2 * Filter303.sampleRate f) = false ->
    is_nan (modCutoff f env fmInput) = false /\
    fleb (modCutoff f env fmInput) (decf 45 2 * Filter303.sampleRate f) = true.
Proof.
  intros f env fmInput H.
  pose proof (modCutoff_upper f env fmInput H) as Hu.
  split; [apply (fleb_not_nan _ _ Hu) | exact Hu].
Qed.

Lemma modCutoff_is_a_bounded_number_witness :
  is_nan (decf 45 2 * decf 44100 0) = false /\
  is_nan (envMod (setEnvMod S754_nan (Filter303.new (decf 44100 0)))) = true /\
  is_nan (modCutoff (setEnvMod S754_nan (Filter303.new (decf 44100 0)))
                    (decf 1 0) zero) = false.
Proof.
  assert (H : is_nan (decf 45 2 * decf 44100 0) = false)
    by (vm_compute; reflexivity).
  split; [exact H |]. split; [reflexivity |].
  exact (proj1 (modCutoff_is_a_bounded_number
                  (setEnvMod S754_nan (Filter303.new (decf 44100 0)))
                  (decf 1 0) zero H)).
Defined.

(** X23. What [process] does not read.  The accent envelope argument has
    no effect on the sample returned or on the state left behind; and
    unless [fmAmount] is above 0.001 (a NaN is not), neither has the FM
    input. *)
Theorem accent_and_gated_fm_are_ignored :
  forall (expf : float -> float) (f : Filter303.t)
         (input env accent accent' fm fm' : float),
    Filter303.process expf f (mk_sample input env accent fm)
    = Filter303.process expf f (mk_sample input env accent' fm) /\
    (fltb (decf 1 3) (fmAmount f) = false ->
     Filter303.process expf f (mk_sample input env accent fm)
     = Filter303.process expf f (mk_sample input env accent' fm')).
Proof.
  intros expf f input env accent accent' fm fm'.
  split; [reflexivity |].
  intros H. unfold Filter303.process, modCutoff, modAmt.
  cbn [s_input s_env s_fmInput]. rewrite H. reflexivity.
Qed.

End FilterProperties.

(* ================================================================== *)
(** * Part IV: oscillator (exact arithmetic)                            *)
(* ================================================================== *)

Module OscillatorFacts.
Import CMath Oscillator.
Local Open Scope R_scope.

(** *** Integer part, truncation and the wrap *)

Lemma Int_part_unique (x : R) (n : Z) :
  IZR n <= x < IZR n + 1 -> Int_part x = n.
Proof.
  intros [Hlo Hhi]. unfold Int_part.
  assert (H : (n + 1)%Z = up x).
  { apply tech_up; rewrite plus_IZR; lra. }
  lia.
Qed.

Lemma truncZ_nonneg (x : R) (n : Z) :
  0 <= x -> IZR n <= x < IZR n + 1 -> truncZ x = n.
Proof.
  intros H0 H. unfold truncZ. destruct (Rle_dec 0 x); [| lra].
  now apply Int_part_unique.
Qed.

Lemma fmodf_unit (x : R) (n : Z) :
  0 <= x -> IZR n <= x < IZR n + 1 -> fmodf x 1 = x - IZR n.
Proof.
  intros H0 H. unfold fmodf.
  replace (x / 1) with x by field.
  rewrite (truncZ_nonneg x n H0 H). ring.
Qed.

Lemma wrap_range (p : R) : 0 <= p -> 0 <= wrap p < 1.
Proof.
  intros H. unfold wrap, floorf.
  destruct (Rle_dec 1 p); [| lra].
  destruct (base_Int_part p). lra.
Qed.

Lemma wrap_value (p : R) (n : Z) :
  IZR n <= p < IZR n + 1 -> (1 <= n)%Z -> wrap p = p - IZR n.
Proof.
  intros H Hn. unfold wrap, floorf.
  assert (1 <= IZR n) by (apply IZR_le in Hn; exact Hn).
  destruct (Rle_dec 1 p); [| lra].
  now rewrite (Int_part_unique p n H).
Qed.

Lemma clamp01 (b : R) : 0 <= Rmax 0 (Rmin 1 b) <= 1.
Proof.
  unfold Rmax, Rmin.
  destruct (Rle_dec 1 b); destruct (Rle_dec 0 _); lra.
Qed.

(** *** The invariant of reachable states *)

Record Inv (o : t) : Prop := {
  inv_sampleRate : 0 < sampleRate o;
  inv_frequency : 0 < frequency o;
  inv_phaseIncrement : 0 < phaseIncrement o;
  inv_subPhaseIncrement : 0 < subPhaseIncrement o;
  inv_phase : 0 <= phase o < 1;
  inv_subPhase : 0 <= subPhase o < 1;
  inv_glideStep : (0 < glideCounter o)%Z -> 0 < glideStep o;
  inv_blend : 0 <= blend o <= 1;
  inv_subBlend : 0 <= subBlend o <= 1;
  inv_pulseWidth : pulseWidth o = 0.5 \/ pulseWidth o = 0.53
}.

Lemma Inv_init : Inv init.
Proof. constructor; simpl; try lra; try lia. Qed.

Lemma Inv_tick (o : t) : Inv o -> Inv (tick o).
Proof.
  intros [Hsr Hf Hpi Hspi Hp Hsp Hgs Hb Hsb Hpw]. unfold tick.
  destruct (0 <? glideCounter o)%Z eqn:Hc.
  - apply Z.ltb_lt in Hc. specialize (Hgs Hc).
    assert (Hf' : 0 < frequency o * glideStep o)
      by now apply Rmult_lt_0_compat.
    constructor; simpl; try assumption.
    + now apply Rdiv_lt_0_compat.
    + apply Rdiv_lt_0_compat; [lra | assumption].
    + intros _. assumption.
  - constructor; assumption.
Qed.

Lemma Inv_process (o : t) : Inv o -> Inv (snd (process o)).
Proof.
  intros H. apply Inv_tick in H.
  destruct H as [Hsr Hf Hpi Hspi Hp Hsp Hgs Hb Hsb Hpw].
  unfold process. cbv zeta. cbn [snd].
  constructor; simpl; try assumption.
  - apply wrap_range. lra.
  - apply wrap_range. lra.
Qed.

Lemma osc_reachable_Inv (o : t) : reachable o -> Inv o.
Proof.
  induction 1 as [| rate o Hr _ IH | f o Hf _ IH | w o _ IH | b o _ IH
                  | b o _ IH | m o _ IH | f ms o Hf _ IH | o _ IH | o _ IH
                  | o _ IH].
  - apply Inv_init.
  - destruct IH; constructor; simpl; assumption.
  - destruct IH; constructor; simpl; try assumption; try lra.
    + now apply Rdiv_lt_0_compat.
    + apply Rdiv_lt_0_compat; [lra | assumption].
  - destruct IH; constructor; simpl; assumption.
  - destruct IH; constructor; simpl; try assumption. apply clamp01.
  - destruct IH; constructor; simpl; try assumption. apply clamp01.
  - destruct IH; constructor; simpl; try assumption.
    destruct m; [now right | now left].
  - destruct IH; constructor; simpl; try assumption.
    intros _. unfold powf, Rpower. apply exp_pos.
  - now apply Inv_tick.
  - destruct IH; constructor; simpl; try assumption; lra.
  - now apply Inv_process.
Qed.

Lemma osc_reachable_run (n : nat) (o : t) : reachable o -> reachable (run n o).
Proof.
  intros H. induction n as [| n IH]; simpl; [assumption |].
  now apply r_process.
Qed.

(** *** The band-limited step correction *)

Section PolyBLEP.
Variable o : t.
Hypothesis Hinc : 0 < phaseIncrement o.

Lemma quotient_spec (a : R) : a = (a / phaseIncrement o) * phaseIncrement o.
Proof. field. lra. Qed.

Lemma polyBLEP_range (t0 : R) :
  0 <= t0 < 1 -> -1 <= polyBLEP o t0 <= 1.
Proof.
  intros Ht. unfold polyBLEP.
  destruct (Rlt_dec t0 (phaseIncrement o)) as [H1 | H1].
  - pose proof (quotient_spec t0) as Hu. cbv zeta.
    set (u := t0 / phaseIncrement o) in *.
    assert (0 <= u < 1) by nra. nra.
  - destruct (Rlt_dec (1 - phaseIncrement o) t0) as [H2 | H2]; [| lra].
    pose proof (quotient_spec (t0 - 1)) as Hu. cbv zeta.
    set (u := (t0 - 1) / phaseIncrement o) in *.
    assert (-1 < u < 0) by nra. nra.
Qed.

(** Over one period the correction never decreases. *)
Lemma polyBLEP_mono (a b : R) :
  0 <= a -> a <= b -> b < 1 -> polyBLEP o a <= polyBLEP o b.
Proof.
  intros Ha Hab Hb. unfold polyBLEP.
  pose proof (quotient_spec a) as Hua.
  pose proof (quotient_spec b) as Hub.
  pose proof (quotient_spec (a - 1)) as Hva.
  pose proof (quotient_spec (b - 1)) as Hvb.
  set (ua := a / phaseIncrement o) in *.
  set (ub := b / phaseIncrement o) in *.
  set (va := (a - 1) / phaseIncrement o) in *.
  set (vb := (b - 1) / phaseIncrement o) in *.
  destruct (Rlt_dec a (phaseIncrement o)) as [A1 | A1];
    destruct (Rlt_dec b (phaseIncrement o)) as [B1 | B1]; cbv zeta.
  - assert (0 <= ua <= ub) by nra. assert (ub < 1) by nra. nra.
  - assert (0 <= ua < 1) by nra.
    destruct (Rlt_dec (1 - phaseIncrement o) b) as [B2 | B2]; nra.
  - lra.
  - destruct (Rlt_dec (1 - phaseIncrement o) a) as [A2 | A2];
      destruct (Rlt_dec (1 - phaseIncrement o) b) as [B2 | B2].
    + assert (-1 < va) by nra. assert (va <= vb) by nra.
      assert (vb < 0) by nra. nra.
    + lra.
    + nra.
    + lra.
Qed.

(** The square wave with both edge corrections stays within one unit. *)
Lemma square_bound (p pw : R) :
  0 <= p < 1 -> 0 < pw <= 1 ->
  -1 <= (if Rlt_dec p pw then 1 else -1) + polyBLEP o p
        - polyBLEP o (fmodf (p + 1 - pw) 1) <= 1.
Proof.
  intros Hp Hpw.
  destruct (Rlt_dec p pw) as [H | H].
  - rewrite (fmodf_unit (p + 1 - pw) 0) by lra.
    replace (p + 1 - pw - 0) with (p + 1 - pw) by ring.
    pose proof (polyBLEP_mono p (p + 1 - pw)).
    pose proof (polyBLEP_range p).
    pose proof (polyBLEP_range (p + 1 - pw)). lra.
  - rewrite (fmodf_unit (p + 1 - pw) 1) by lra.
    replace (p + 1 - pw - 1) with (p - pw) by ring.
    pose proof (polyBLEP_mono (p - pw) p).
    pose proof (polyBLEP_range p).
    pose proof (polyBLEP_range (p - pw)). lra.
Qed.


End PolyBLEP.


Lemma mix_bound (b x y : R) :
  0 <= b <= 1 -> -1 <= x <= 1 -> -1 <= y <= 1 ->
  -1 <= (1 - b) * x + b * y <= 1.
Proof. intros. nra. Qed.


End OscillatorFacts.

Section OscillatorProperties.
Import CMath Oscillator OscillatorFacts.
Local Open Scope R_scope.

(** X1. Oscillator phase invariant: when every sample rate and frequency
    given to the oscillator is positive, [phase] and [subPhase] lie in
    [[0,1)] after any number of [process] calls, whatever setters, glides
    and ticks came before. *)
Theorem osc_phase_in_unit_interval :
  forall (o : Oscillator.t) (n : nat),
    Oscillator.reachable o ->
    0 <= phase (Oscillator.run n o) < 1 /\
    0 <= subPhase (Oscillator.run n o) < 1.
Proof.
  intros o n H.
  destruct (osc_reachable_Inv _ (osc_reachable_run n o H)). split; assumption.
Qed.

Lemma osc_phase_in_unit_interval_witness :
  Oscillator.reachable
    (glideTo 220 60 (setFrequency 110 (Oscillator.setSampleRate 48000 Oscillator.init))) /\
  0 <= phase (Oscillator.run 3
                (glideTo 220 60
                   (setFrequency 110 (Oscillator.setSampleRate 48000 Oscillator.init)))) < 1.
Proof.
  assert (H : Oscillator.reachable
                (glideTo 220 60
                   (setFrequency 110 (Oscillator.setSampleRate 48000 Oscillator.init)))).
  { apply Oscillator.r_glideTo; [lra |].
    apply Oscillator.r_setFrequency; [lra |].
    apply Oscillator.r_setSampleRate; [lra |]. apply Oscillator.r_init. }
  split; [exact H |].
  exact (proj1 (osc_phase_in_unit_interval _ 3 H)).
Defined.



(** With the blend at 0 (pure square plus sub-oscillator) the bound
    0.707 holds at every positive frequency, also above the sample rate:
    the two edge corrections of the square never add up beyond one unit. *)
Theorem osc_square_within_headroom :
  forall o : Oscillator.t,
    Oscillator.reachable o ->
    blend o = 0 ->
    -0.707 <= fst (Oscillator.process o) <= 0.707.
Proof.
  intros o H Hb.
  assert (HI : Inv (tick o)) by (apply osc_reachable_Inv; now apply r_tick).
  assert (Hb' : blend (tick o) = 0).
  { unfold tick. destruct (0 <? glideCounter o)%Z; simpl; assumption. }
  destruct HI as [Hsr Hf Hpi Hspi Hp Hsp Hgs Hbl Hsb Hpw].
  unfold Oscillator.process. cbv zeta. cbn [fst].
  set (o' := tick o) in *.
  assert (Hpw' : 0 < pulseWidth o' <= 1) by (destruct Hpw as [-> | ->]; lra).
  pose proof (square_bound o' Hpi _ _ Hp Hpw') as Hsq.
  set (sq := (if Rlt_dec (phase o') (pulseWidth o') then 1 else -1)
             + polyBLEP o' (phase o')
             - polyBLEP o' (fmodf (phase o' + 1 - pulseWidth o') 1)) in *.
  rewrite Hb'.
  assert (Hsub : -1 <= (if Rlt_dec (subPhase o') 0.5 then 1 else -1) <= 1)
    by (destruct (Rlt_dec (subPhase o') 0.5); lra).
  set (sv := if Rlt_dec (subPhase o') 0.5 then 1 else -1) in *.
  set (saw := 2 * fmodf (phase o' + 0.5) 1 - 1
              - polyBLEP o' (fmodf (phase o' + 0.5) 1)).
  assert (Hm : -1 <= (1 - 0) * sq + 0 * saw <= 1) by lra.
  pose proof (mix_bound _ _ _ Hsb Hm Hsub). lra.
Qed.

Lemma osc_square_within_headroom_witness :
  Oscillator.reachable (setFrequency 458640 Oscillator.init) /\
  blend (setFrequency 458640 Oscillator.init) = 0 /\
  -0.707 <= fst (Oscillator.process (setFrequency 458640 Oscillator.init)) <= 0.707.
Proof.
  assert (H : Oscillator.reachable (setFrequency 458640 Oscillator.init)).
  { apply Oscillator.r_setFrequency; [lra | apply Oscillator.r_init]. }
  split; [exact H |]. split; [reflexivity |].
  exact (osc_square_within_headroom _ H eq_refl).
Defined.

(** X3. The band-limited step correction [polyBLEP], for a positive phase
    increment and an argument in [[0,1)]: it lies in [[-1,1]], it never
    decreases as the argument grows, it is -1 at 0, and it vanishes
    between the two edge zones. *)
Theorem polyBLEP_shape :
  forall o : Oscillator.t,
    0 < phaseIncrement o ->
    (forall t0 : R, 0 <= t0 < 1 -> -1 <= polyBLEP o t0 <= 1) /\
    (forall a b : R, 0 <= a -> a <= b -> b < 1 -> polyBLEP o a <= polyBLEP o b) /\
    polyBLEP o 0 = -1 /\
    (forall t0 : R,
        phaseIncrement o <= t0 -> t0 <= 1 - phaseIncrement o ->
        polyBLEP o t0 = 0).
Proof.
  intros o Hinc. split; [| split; [| split]].
  - intros t0. now apply polyBLEP_range.
  - intros a b. now apply polyBLEP_mono.
  - unfold polyBLEP. destruct (Rlt_dec 0 (phaseIncrement o)); [| lra].
    cbv zeta. unfold Rdiv. rewrite Rmult_0_l. ring.
  - intros t0 H1 H2. unfold polyBLEP.
    destruct (Rlt_dec t0 (phaseIncrement o)); [lra |].
    destruct (Rlt_dec (1 - phaseIncrement o) t0); [lra | reflexivity].
Qed.

Lemma polyBLEP_shape_witness :
  0 < phaseIncrement Oscillator.init /\ polyBLEP Oscillator.init 0 = -1.
Proof.
  assert (H : 0 < phaseIncrement Oscillator.init) by (simpl; lra).
  split; [exact H |].
  exact (proj1 (proj2 (proj2 (polyBLEP_shape Oscillator.init H)))).
Defined.

Lemma half_rate (f sr : R) : f * 0.5 / sr = f / sr / 2.
Proof.
  unfold Rdiv. replace (f * (5 * / 10) * / sr) with (f * / sr * (5 * / 10)) by ring.
  lra.
Qed.

(** X4. The sub-oscillator runs at half rate: in every reachable state
    [subPhaseIncrement] is exactly half of [phaseIncrement]. *)
Theorem sub_increment_is_half :
  forall o : Oscillator.t,
    Oscillator.reachable o ->
    subPhaseIncrement o = phaseIncrement o / 2.
Proof.
  induction 1 as [| rate o Hr _ IH | f o Hf _ IH | w o _ IH | b o _ IH
                  | b o _ IH | m o _ IH | f ms o Hf _ IH | o _ IH | o _ IH
                  | o _ IH]; try (simpl; assumption).
  - simpl. lra.
  - simpl. apply half_rate.
  - unfold tick. destruct (0 <? glideCounter o)%Z; [| assumption].
    simpl. apply half_rate.
  - unfold Oscillator.process. cbv zeta. cbn [snd subPhaseIncrement phaseIncrement].
    unfold tick. destruct (0 <? glideCounter o)%Z; [| assumption].
    simpl. apply half_rate.
Qed.

Lemma sub_increment_is_half_witness :
  Oscillator.reachable (setFrequency 110 Oscillator.init) /\
  subPhaseIncrement (setFrequency 110 Oscillator.init)
  = phaseIncrement (setFrequency 110 Oscillator.init) / 2.
Proof.
  assert (H : Oscillator.reachable (setFrequency 110 Oscillator.init)).
  { apply Oscillator.r_setFrequency; [lra | apply Oscillator.r_init]. }
  split; [exact H | exact (sub_increment_is_half _ H)].
Defined.

(** [setBlend] and [setSubBlend] clamp: the stored value is always in
    [[0,1]], it is the argument itself when that lies in [[0,1]], 0 for a
    negative argument and 1 for an argument above 1. *)
Theorem blend_setters_clamp :
  forall (b : R) (o : Oscillator.t),
    0 <= blend (setBlend b o) <= 1 /\
    0 <= subBlend (setSubBlend b o) <= 1 /\
    blend (setBlend b o) = subBlend (setSubBlend b o) /\
    blend (setBlend b o)
    = (if Rlt_dec b 0 then 0 else if Rlt_dec 1 b then 1 else b).
Proof.
  intros b o. cbn [blend subBlend setBlend setSubBlend].
  pose proof (clamp01 b) as H.
  repeat split; try apply H.
  unfold Rmax, Rmin.
  destruct (Rlt_dec b 0); destruct (Rlt_dec 1 b);
    destruct (Rle_dec 1 b); destruct (Rle_dec 0 _); lra.
Qed.

(** X5. The [waveform] selector is never read: [setWaveform] changes
    neither the sample [process] returns nor the phases it leaves. *)
Theorem waveform_has_no_effect :
  forall (w : Waveform) (o : Oscillator.t),
    fst (Oscillator.process (setWaveform w o)) = fst (Oscillator.process o) /\
    phase (snd (Oscillator.process (setWaveform w o)))
    = phase (snd (Oscillator.process o)) /\
    subPhase (snd (Oscillator.process (setWaveform w o)))
    = subPhase (snd (Oscillator.process o)).
Proof.
  intros w o. unfold Oscillator.process, tick, setWaveform, polyBLEP.
  cbn [glideCounter]. destruct (0 <? glideCounter o)%Z; cbn; repeat split.
Qed.

End OscillatorProperties.

(** *** Glide *)

Module GlideFacts.
Import CMath Oscillator OscillatorFacts.
Local Open Scope R_scope.

Lemma tick_active (o : t) :
  (0 < glideCounter o)%Z ->
  frequency (tick o) = frequency o * glideStep o /\
  glideCounter (tick o) = (glideCounter o - 1)%Z /\
  glideStep (tick o) = glideStep o /\
  targetFreq (tick o) = targetFreq o.
Proof.
  intros H. unfold tick. apply Z.ltb_lt in H. rewrite H. simpl. tauto.
Qed.




(** While the counter lasts, every tick multiplies the frequency by the
    same step. *)
Lemma ticks_active (n : nat) (o : t) :
  (Z.of_nat n <= glideCounter o)%Z ->
  frequency (ticks n o) = frequency o * glideStep o ^ n /\
  glideCounter (ticks n o) = (glideCounter o - Z.of_nat n)%Z /\
  glideStep (ticks n o) = glideStep o /\
  targetFreq (ticks n o) = targetFreq o.
Proof.
  induction n as [| n IH]; intros H.
  - simpl. repeat split; try ring; try lia.
  - destruct IH as (If & Ic & Is & It); [lia |].
    destruct (tick_active (ticks n o)) as (Tf & Tc & Ts & Tt); [lia |].
    cbn [ticks]. rewrite Tf, Tc, Ts, Tt, If, Ic, Is, It.
    repeat split; try reflexivity; [simpl; ring | lia].
Qed.


Lemma step_power (r N : R) (n : nat) :
  0 < r -> Rpower r (1 / N) ^ n = Rpower r (INR n / N).
Proof.
  intros Hr. rewrite <- Rpower_pow by (unfold Rpower; apply exp_pos).
  rewrite Rpower_mult. f_equal. unfold Rdiv. ring.
Qed.

(** The frequency a glide ends on: the start frequency times the ratio
    raised to [counter / glideSamples]. *)
Lemma glide_end (o : t) (f ms : R) (n : nat) :
  0 < frequency o -> 0 < f ->
  glideCounter (glideTo f ms o) = Z.of_nat n ->
  frequency (ticks n (glideTo f ms o)) =
  frequency o * Rpower (f / frequency o) (INR n / glideSamples (glideTo f ms o)).
Proof.
  intros Ho Hf Hn.
  destruct (ticks_active n (glideTo f ms o)) as (H & _); [lia |].
  rewrite H. cbn [frequency glideStep glideSamples glideTo]. unfold powf.
  rewrite step_power; [reflexivity |]. now apply Rdiv_lt_0_compat.
Qed.

Lemma Rpower_2_lt_2 (x : R) : x < 1 -> Rpower 2 x < 2.
Proof.
  intros H. rewrite <- (Rpower_1 2) at 2 by lra.
  apply Rpower_lt; lra.
Qed.






End GlideFacts.

Section GlideProperties.
Import CMath Oscillator OscillatorFacts GlideFacts.
Local Open Scope R_scope.











End GlideProperties.

Module PhaseFacts.
Import CMath Oscillator OscillatorFacts GlideFacts.
Local Open Scope R_scope.





End PhaseFacts.

Section PhaseProperties.
Import CMath Oscillator OscillatorFacts GlideFacts PhaseFacts.
Local Open Scope R_scope.



End PhaseProperties.

(* ================================================================== *)
(** * Part V: envelopes (exact arithmetic)                              *)
(* ================================================================== *)

(** ** The decay coefficient formula *)

Module CoeffFacts.
Import CMath.
Local Open Scope R_scope.

(** [exp(-1 / (0.001 * t * sr))] is a contraction factor when the time
    constant and the sample rate are positive. *)
Lemma decay_coeff_range (tm sr : R) :
  0 < tm -> 0 < sr -> 0 < expf (-1 / (0.001 * tm * sr)) < 1.
Proof.
  intros Ht Hs. unfold expf. split; [apply exp_pos |].
  rewrite <- exp_0. apply exp_increasing.
  assert (0 < 0.001 * tm * sr) by nra.
  assert (0 < / (0.001 * tm * sr)) by now apply Rinv_0_lt_compat.
  unfold Rdiv. lra.
Qed.



End CoeffFacts.

(** ** Amplitude envelope *)

Module AnalogEnvelopeFacts.
Import CMath AnalogEnvelope CoeffFacts.
Local Open Scope R_scope.

Record Inv (e : t) : Prop := {
  inv_sampleRate : 0 < sampleRate e;
  inv_decayTime : 0 < decayTime e;
  inv_releaseTime : 0 < releaseTime e;
  inv_decayCoeff : 0 < decayCoeff e < 1;
  inv_releaseCoeff : 0 < releaseCoeff e < 1;
  inv_attackCoeff : 0 < attackCoeff e <= 1;
  inv_level : 0 <= currentLevel e <= 1;
  inv_idle : state e = IDLE -> currentLevel e = 0
}.

Lemma attack_coeff_range (e : t) : 0 < attackCoeff (calculateCoeffs e) <= 1.
Proof.
  unfold calculateCoeffs. cbn [attackCoeff].
  destruct (Rlt_dec (0.001 * attackTime e * sampleRate e) 1) as [H | H].
  - lra.
  - set (a := 0.001 * attackTime e * sampleRate e) in *.
    assert (Ha : 1 <= a) by lra.
    assert (0 < / a) by (apply Rinv_0_lt_compat; lra).
    assert (/ a <= / 1) by (apply Rinv_le_contravar; lra).
    unfold Rdiv. rewrite Rinv_1 in *. lra.
Qed.

Lemma Inv_calculateCoeffs (e : t) :
  0 < sampleRate e -> 0 < decayTime e -> 0 < releaseTime e ->
  0 <= currentLevel e <= 1 -> (state e = IDLE -> currentLevel e = 0) ->
  Inv (calculateCoeffs e).
Proof.
  intros Hs Hd Hr Hl Hi.
  constructor; try (unfold calculateCoeffs; simpl; assumption).
  - unfold calculateCoeffs; simpl. now apply decay_coeff_range.
  - unfold calculateCoeffs; simpl. now apply decay_coeff_range.
  - apply attack_coeff_range.
Qed.

Lemma Inv_step (e : t) : Inv e -> Inv (step e).
Proof.
  intros [Hs Hd Hr Hdc Hrc Hac Hl Hi]. unfold step.
  destruct (state e) eqn:E.
  - constructor; try assumption. now rewrite E.
  - destruct (Rle_dec 1 (currentLevel e + attackCoeff e));
      constructor; simpl; try assumption; try lra; discriminate.
  - destruct (Rlt_dec (currentLevel e * decayCoeff e) 0.0001);
      constructor; simpl; try assumption; try lra; try nra;
      try reflexivity; discriminate.
  - destruct (Rlt_dec (currentLevel e * releaseCoeff e) 0.0001);
      constructor; simpl; try assumption; try lra; try nra;
      try reflexivity; discriminate.
Qed.

Lemma env_reachable_Inv (e : t) : reachable e -> Inv e.
Proof.
  induction 1 as [| sr e Hsr _ IH | ms e Hms _ IH | ms e Hms _ IH
                  | ms e _ IH | e _ IH | e _ IH | e _ IH].
  - constructor; simpl; try lra; try reflexivity.
  - destruct IH. apply Inv_calculateCoeffs; simpl; assumption.
  - destruct IH. apply Inv_calculateCoeffs; simpl; assumption.
  - destruct IH. apply Inv_calculateCoeffs; simpl; assumption.
  - destruct IH. apply Inv_calculateCoeffs; simpl; assumption.
  - destruct IH. constructor; simpl; try assumption; try lra; try discriminate.
  - destruct IH. constructor; simpl; try assumption; try discriminate.
  - now apply Inv_step.
Qed.

Lemma run_S (n : nat) (e : t) : run (S n) e = step (run n e).
Proof. reflexivity. Qed.


Lemma env_reachable_run (n : nat) (e : t) : reachable e -> reachable (run n e).
Proof.
  intros H. induction n as [| n IH]; [assumption |].
  cbn [run]. now apply r_process.
Qed.

(** [process] never writes a coefficient, a time, the rate or the gate. *)
Lemma step_config (e : t) :
  attackCoeff (step e) = attackCoeff e /\
  decayCoeff (step e) = decayCoeff e /\
  releaseCoeff (step e) = releaseCoeff e /\
  isNoteOn (step e) = isNoteOn e.
Proof.
  unfold step. destruct (state e); simpl; try tauto.
  - destruct (Rle_dec 1 _); simpl; tauto.
  - destruct (Rlt_dec _ 0.0001); simpl; tauto.
  - destruct (Rlt_dec _ 0.0001); simpl; tauto.
Qed.

Lemma run_config (n : nat) (e : t) :
  attackCoeff (run n e) = attackCoeff e /\
  decayCoeff (run n e) = decayCoeff e /\
  releaseCoeff (run n e) = releaseCoeff e /\
  isNoteOn (run n e) = isNoteOn e.
Proof.
  induction n as [| n (Ia & Id & Ir & Ig)]; [simpl; tauto |].
  rewrite run_S. destruct (step_config (run n e)) as (Sa & Sd & Sr & Sg).
  repeat split; congruence.
Qed.

(** *** Attack: a linear ramp *)




(** *** Decay and release: a contraction down to the floor *)







End AnalogEnvelopeFacts.

Section AnalogEnvelopeProperties.
Import CMath AnalogEnvelope CoeffFacts AnalogEnvelopeFacts.
Local Open Scope R_scope.



(** X13. The amplitude level stays in range.  When every sample rate,
    decay time and release time given to the envelope is positive, every
    value [process] returns lies in [[0,1]], and a state in Idle has level
    exactly 0 and is left unchanged by [process]. *)
Theorem amplitude_level_in_unit_interval :
  forall (e : AnalogEnvelope.t) (n : nat),
    AnalogEnvelope.reachable e ->
    0 <= fst (AnalogEnvelope.process (AnalogEnvelope.run n e)) <= 1 /\
    (state (AnalogEnvelope.run n e) = IDLE ->
       AnalogEnvelope.process (AnalogEnvelope.run n e)
       = (0, AnalogEnvelope.run n e)).
Proof.
  intros e n Hr.
  pose proof (env_reachable_run n e Hr) as Hn.
  split.
  - unfold AnalogEnvelope.process. cbn [fst].
    apply (inv_level _ (Inv_step _ (env_reachable_Inv _ Hn))).
  - intros Hi. unfold AnalogEnvelope.process, step. rewrite Hi.
    rewrite (inv_idle _ (env_reachable_Inv _ Hn) Hi). reflexivity.
Qed.

Lemma amplitude_level_in_unit_interval_witness :
  AnalogEnvelope.reachable (noteOn (setDecay 200 AnalogEnvelope.init)) /\
  0 <= fst (AnalogEnvelope.process
              (AnalogEnvelope.run 5 (noteOn (setDecay 200 AnalogEnvelope.init)))) <= 1.
Proof.
  assert (H : AnalogEnvelope.reachable (noteOn (setDecay 200 AnalogEnvelope.init))).
  { apply AnalogEnvelope.r_noteOn, AnalogEnvelope.r_setDecay; [lra |].
    apply AnalogEnvelope.r_init. }
  split; [exact H |].
  exact (proj1 (amplitude_level_in_unit_interval _ 5 H)).
Defined.







(** X17. The attack sample count is floored at one sample.  Whatever the
    attack time and sample rate, the increment is in [(0,1]]; when
    [0.001 * ms * sampleRate < 1] (zero and negative times included) it is
    exactly 1, so the first [process] after [noteOn] returns 1 and enters
    Decay. *)
Theorem short_attack_is_one_sample :
  forall (e : AnalogEnvelope.t) (ms : R),
    0 < attackCoeff (setAttack ms e) <= 1 /\
    (0.001 * ms * AnalogEnvelope.sampleRate e < 1 ->
     attackCoeff (setAttack ms e) = 1 /\
     AnalogEnvelope.process (noteOn (setAttack ms e))
     = (1, with_level DECAY 1 (noteOn (setAttack ms e)))).
Proof.
  intros e ms. split; [unfold setAttack; apply attack_coeff_range |].
  intros H.
  assert (Hc : attackCoeff (setAttack ms e) = 1).
  { unfold setAttack, calculateCoeffs.
    cbn [attackCoeff attackTime AnalogEnvelope.sampleRate].
    destruct (Rlt_dec (0.001 * ms * AnalogEnvelope.sampleRate e) 1); lra. }
  split; [exact Hc |].
  unfold AnalogEnvelope.process, step. cbn [state noteOn currentLevel attackCoeff].
  rewrite Hc.
  destruct (Rle_dec 1 (0 + 1)); [reflexivity | lra].
Qed.

Lemma short_attack_is_one_sample_witness :
  0.001 * 0 * AnalogEnvelope.sampleRate AnalogEnvelope.init < 1 /\
  attackCoeff (setAttack 0 AnalogEnvelope.init) = 1.
Proof.
  assert (H : 0.001 * 0 * AnalogEnvelope.sampleRate AnalogEnvelope.init < 1)
    by (simpl; lra).
  split; [exact H |].
  exact (proj1 (proj2 (short_attack_is_one_sample AnalogEnvelope.init 0) H)).
Defined.

(** X18. [isActive] follows the gate only: it is true after [noteOn] and
    false after [noteOff] for any number of [process] calls, whatever
    stage and level the envelope has reached, and no setter changes it. *)
Theorem isActive_follows_gate :
  forall (e : AnalogEnvelope.t) (n : nat) (x : R),
    isActive (AnalogEnvelope.run n (noteOn e)) = true /\
    isActive (AnalogEnvelope.run n (noteOff e)) = false /\
    isActive (AnalogEnvelope.setSampleRate x e) = isActive e /\
    isActive (setAttack x e) = isActive e /\
    isActive (setDecay x e) = isActive e /\
    isActive (setRelease x e) = isActive e.
Proof.
  intros e n x. unfold isActive.
  destruct (run_config n (noteOn e)) as (_ & _ & _ & H1).
  destruct (run_config n (noteOff e)) as (_ & _ & _ & H2).
  rewrite H1, H2. repeat split.
Qed.

End AnalogEnvelopeProperties.

(** ** Modulation envelope *)

Module DecayEnvelopeFacts.
Import CMath DecayEnvelope CoeffFacts.
Local Open Scope R_scope.

Record Inv (e : t) : Prop := {
  inv_sampleRate : 0 < sampleRate e;
  inv_coeff : 0 < coeff e < 1;
  inv_y : 0 <= y e
}.





End DecayEnvelopeFacts.

Section DecayEnvelopeProperties.
Import CMath DecayEnvelope CoeffFacts DecayEnvelopeFacts.
Local Open Scope R_scope.




End DecayEnvelopeProperties.

(* ================================================================== *)
(** * Part VI: the effect units (exact arithmetic)                      *)
(* ================================================================== *)

Module TanhFacts.
Local Open Scope R_scope.

Lemma cosh_pos (x : R) : 0 < cosh x.
Proof.
  unfold cosh. pose proof (exp_pos x). pose proof (exp_pos (- x)). lra.
Qed.

Lemma tanh_bound (x : R) : -1 < tanh x < 1.
Proof.
  unfold tanh. pose proof (cosh_pos x) as Hc.
  assert (Hs : - cosh x < sinh x < cosh x).
  { unfold sinh, cosh. pose proof (exp_pos x). pose proof (exp_pos (- x)). lra. }
  split.
  - apply Rmult_lt_reg_r with (cosh x); [exact Hc |].
    unfold Rdiv. rewrite Rmult_assoc, Rinv_l by lra. lra.
  - apply Rmult_lt_reg_r with (cosh x); [exact Hc |].
    unfold Rdiv. rewrite Rmult_assoc, Rinv_l by lra. lra.
Qed.


Lemma tanh_sign (x : R) : (0 <= x -> 0 <= tanh x) /\ (x <= 0 -> tanh x <= 0).
Proof.
  pose proof (cosh_pos x) as Hc.
  assert (Hi : 0 < / cosh x) by now apply Rinv_0_lt_compat.
  unfold tanh, Rdiv. split; intros H.
  - assert (0 <= sinh x).
    { destruct (Req_dec x 0) as [-> | Hn]; [rewrite sinh_0; lra |].
      rewrite <- sinh_0. left. apply sinh_lt. lra. }
    nra.
  - assert (sinh x <= 0).
    { destruct (Req_dec x 0) as [-> | Hn]; [rewrite sinh_0; lra |].
      rewrite <- sinh_0. left. apply sinh_lt. lra. }
    nra.
Qed.

End TanhFacts.

Section LeakyIntegratorProperties.
Import CMath LeakyIntegrator CoeffFacts.
Local Open Scope R_scope.


End LeakyIntegratorProperties.

Section DCBlockerProperties.
Import CMath DCBlocker CoeffFacts.
Local Open Scope R_scope.



(** The DC blocker's coefficients.  For a positive cutoff and
    sample rate [alpha] is strictly between 0 and 1 and [R] is below 1;
    [R] is above -1, so that the blocked constant dies away, exactly when
    [M_PI * cutoff < sampleRate]. *)
Theorem dc_blocker_coefficients :
  forall (b : DCBlocker.t) (hz : R),
    0 < hz -> 0 < DCBlocker.sampleRate b ->
    0 < alpha (DCBlocker.setCutoff hz b) < 1 /\
    R_ (DCBlocker.setCutoff hz b) < 1 /\
    (-1 < R_ (DCBlocker.setCutoff hz b) <->
     DCBlocker.M_PI * hz < DCBlocker.sampleRate b).
Proof.
  intros b hz Hh Hs.
  unfold DCBlocker.setCutoff, DCBlocker.calculateCoeff.
  cbn [alpha R_ DCBlocker.cutoff DCBlocker.sampleRate].
  assert (Hpi : 0 < DCBlocker.M_PI) by (unfold DCBlocker.M_PI; lra).
  set (sr := DCBlocker.sampleRate b) in *.
  assert (Hi : 0 < / sr) by now apply Rinv_0_lt_compat.
  assert (Hq : 0 < 2 * DCBlocker.M_PI * hz / sr).
  { unfold Rdiv. apply Rmult_lt_0_compat; [nra | exact Hi]. }
  split; [| split].
  - assert (He : 0 < expf (-2 * DCBlocker.M_PI * hz / sr) < 1).
    { unfold expf. split; [apply exp_pos |].
      rewrite <- exp_0. apply exp_increasing.
      replace (-2 * DCBlocker.M_PI * hz / sr)
        with (- (2 * DCBlocker.M_PI * hz / sr)) by (unfold Rdiv; ring).
      lra. }
    lra.
  - lra.
  - assert (Hx : 2 * DCBlocker.M_PI * hz / sr * sr = 2 * DCBlocker.M_PI * hz)
      by (field; lra).
    split; intros H.
    + assert (2 * DCBlocker.M_PI * hz / sr < 2) by lra. nra.
    + assert (2 * DCBlocker.M_PI * hz / sr < 2).
      { apply Rmult_lt_reg_r with sr; [exact Hs |]. rewrite Hx. lra. }
      lra.
Qed.

Lemma dc_blocker_coefficients_witness :
  0 < 25 /\ 0 < DCBlocker.sampleRate DCBlocker.init /\
  0 < alpha (DCBlocker.setCutoff 25 DCBlocker.init) < 1.
Proof.
  assert (H1 : 0 < 25) by lra.
  assert (H2 : 0 < DCBlocker.sampleRate DCBlocker.init) by (simpl; lra).
  split; [exact H1 |]. split; [exact H2 |].
  exact (proj1 (dc_blocker_coefficients DCBlocker.init 25 H1 H2)).
Defined.

End DCBlockerProperties.

Module StereoDelayFacts.
Import CMath StereoDelay TanhFacts.
Local Open Scope R_scope.

(** *** Vectors as lists *)

Lemma update_length (v : list R) (i : nat) (x : R) :
  length (update v i x) = length v.
Proof.
  revert i. induction v as [| a v IH]; intros [| i]; simpl; auto.
Qed.

Lemma update_same (v : list R) (i : nat) (x : R) :
  (i < length v)%nat -> nth_error (update v i x) i = Some x.
Proof.
  revert i. induction v as [| a v IH]; intros [| i] H; simpl in *;
    try lia; auto. apply IH. lia.
Qed.

Lemma update_other (v : list R) (i j : nat) (x : R) :
  i <> j -> nth_error (update v i x) j = nth_error v j.
Proof.
  revert i j. induction v as [| a v IH]; intros [| i] [| j] H; simpl;
    try reflexivity; try congruence. apply IH. congruence.
Qed.

Definition small (x : R) : Prop := -1 < x < 1.

Lemma update_small (v : list R) (i : nat) (x : R) :
  Forall small v -> small x -> Forall small (update v i x).
Proof.
  intros Hv Hx. revert i.
  induction Hv as [| a v Ha Hv IH]; intros [| i]; simpl; constructor; auto.
Qed.

Lemma repeat_small (n : nat) : Forall small (repeat 0 n).
Proof.
  induction n as [| n IH]; simpl; constructor; [unfold small; lra | exact IH].
Qed.

Lemma get_some (v : list R) (i : Z) :
  (0 <= i < Z.of_nat (length v))%Z -> exists x, get v i = Some x.
Proof.
  intros H. unfold get.
  replace ((0 <=? i) && (i <? Z.of_nat (length v)))%Z with true
    by (symmetry; apply andb_true_iff; split;
        [apply Z.leb_le | apply Z.ltb_lt]; lia).
  destruct (nth_error v (Z.to_nat i)) as [x |] eqn:E; [now exists x |].
  apply nth_error_None in E. lia.
Qed.

Lemma get_none (v : list R) (i : Z) :
  (i < 0 \/ Z.of_nat (length v) <= i)%Z -> get v i = None.
Proof.
  intros H. unfold get.
  replace ((0 <=? i) && (i <? Z.of_nat (length v)))%Z with false;
    [reflexivity |].
  symmetry. apply andb_false_iff.
  destruct H; [left; apply Z.leb_gt | right; apply Z.ltb_ge]; lia.
Qed.

Lemma get_nth_error (v : list R) (i : Z) (x : R) :
  get v i = Some x ->
  (0 <= i < Z.of_nat (length v))%Z /\ nth_error v (Z.to_nat i) = Some x.
Proof.
  unfold get.
  destruct ((0 <=? i) && (i <? Z.of_nat (length v)))%Z eqn:E; [| discriminate].
  apply andb_true_iff in E. destruct E as [E1 E2].
  apply Z.leb_le in E1. apply Z.ltb_lt in E2. intros H. split; [lia | exact H].
Qed.

Lemma get_small (v : list R) (i : Z) (x : R) :
  Forall small v -> get v i = Some x -> small x.
Proof.
  intros Hv H. apply get_nth_error in H. destruct H as [_ H].
  apply nth_error_In in H. rewrite Forall_forall in Hv. now apply Hv.
Qed.

Lemma put_some (v : list R) (i : Z) (x : R) :
  (0 <= i < Z.of_nat (length v))%Z ->
  put v i x = Some (update v (Z.to_nat i) x).
Proof.
  intros H. unfold put.
  replace ((0 <=? i) && (i <? Z.of_nat (length v)))%Z with true;
    [reflexivity |].
  symmetry; apply andb_true_iff; split; [apply Z.leb_le | apply Z.ltb_lt]; lia.
Qed.

Lemma not_empty (v : list R) : (0 < length v)%nat -> is_empty v = false.
Proof. destruct v; simpl; [lia | reflexivity]. Qed.

(** *** The allocated, well-formed delay line *)

Record wf (d : t) : Prop := {
  wf_lenL : Z.of_nat (length (bufferL d)) = maxDelaySamples d;
  wf_lenR : Z.of_nat (length (bufferR d)) = maxDelaySamples d;
  wf_write : (0 <= writeIndex d < maxDelaySamples d)%Z;
  wf_delayL : (1 <= delaySamplesL d <= maxDelaySamples d)%Z;
  wf_delayR : (1 <= delaySamplesR d <= maxDelaySamples d)%Z;
  wf_smallL : Forall small (bufferL d);
  wf_smallR : Forall small (bufferR d)
}.

Lemma readIndex_range (d : t) (delay : Z) :
  (0 <= writeIndex d < maxDelaySamples d)%Z ->
  (1 <= delay <= maxDelaySamples d)%Z ->
  (0 <= readIndex d delay < maxDelaySamples d)%Z.
Proof.
  intros Hw Hd. unfold readIndex.
  destruct (writeIndex d - delay <? 0)%Z eqn:E.
  - apply Z.ltb_lt in E. lia.
  - apply Z.ltb_ge in E. lia.
Qed.

(** What [begin] leaves on a freshly constructed delay. *)
Definition begun (M : Z) : t :=
  mk (repeat 0 (Z.to_nat M)) (repeat 0 (Z.to_nat M)) M 0 44100 10000 10000
     0.3 0.3.

Lemma begin_new (M : Z) :
  (0 <= M)%Z -> begin (new M) = Some (true, begun M).
Proof.
  intros H. unfold begin, new, begun, resize.
  cbn [maxDelaySamples bufferL bufferR writeIndex sampleRate delaySamplesL
       delaySamplesR feedback mix].
  destruct (M <? 0)%Z eqn:E; [apply Z.ltb_lt in E; lia |].
  rewrite firstn_nil. cbn [app length]. rewrite Nat.sub_0_r.
  rewrite repeat_length, Z2Nat.id by lia. rewrite Z.eqb_refl. reflexivity.
Qed.

Lemma begin_new_inv (M : Z) (ok : bool) (d : t) :
  begin (new M) = Some (ok, d) -> (0 <= M)%Z /\ ok = true /\ d = begun M.
Proof.
  intros H. destruct (Z.ltb_spec M 0) as [Hn | Hn].
  - unfold begin, new in H. cbn [maxDelaySamples] in H.
    apply Z.ltb_lt in Hn. rewrite Hn in H. discriminate.
  - rewrite begin_new in H by lia. inversion H. auto.
Qed.

Lemma wf_configured (M sL sR : Z) :
  (1 <= M)%Z -> wf (setTimeSamplesR sR (setTimeSamplesL sL (begun M))).
Proof.
  intros H. constructor;
    cbn [setTimeSamplesR setTimeSamplesL begun bufferL bufferR maxDelaySamples
         writeIndex delaySamplesL delaySamplesR];
    try (rewrite repeat_length, Z2Nat.id by lia; reflexivity);
    try lia; apply repeat_small.
Qed.

Lemma wf_setFeedback (fb : R) (d : t) : wf d -> wf (setFeedback fb d).
Proof. intros []; constructor; assumption. Qed.

Lemma wf_setMix (m : R) (d : t) : wf d -> wf (setMix m d).
Proof. intros []; constructor; assumption. Qed.

(** One tick of a well-formed delay line, spelled out. *)
Lemma tick_wf (d : t) (inL inR : R) :
  wf d ->
  exists (dl dr : R),
    get (bufferL d) (readIndex d (delaySamplesL d)) = Some dl /\
    get (bufferR d) (readIndex d (delaySamplesR d)) = Some dr /\
    tick d inL inR =
    Some (mk (update (bufferL d) (Z.to_nat (writeIndex d))
                     (tanh (inL + dl * feedback d)))
             (update (bufferR d) (Z.to_nat (writeIndex d))
                     (tanh (inR + dr * feedback d)))
             (maxDelaySamples d)
             (if (maxDelaySamples d <=? writeIndex d + 1)%Z then 0%Z
              else (writeIndex d + 1)%Z)
             (sampleRate d) (delaySamplesL d) (delaySamplesR d)
             (feedback d) (mix d)).
Proof.
  intros [HlL HlR Hw HdL HdR HsL HsR].
  destruct (get_some (bufferL d) (readIndex d (delaySamplesL d))) as (dl & Edl).
  { rewrite HlL. now apply readIndex_range. }
  destruct (get_some (bufferR d) (readIndex d (delaySamplesR d))) as (dr & Edr).
  { rewrite HlR. now apply readIndex_range. }
  exists dl, dr. split; [exact Edl |]. split; [exact Edr |].
  unfold tick. rewrite !not_empty by lia. cbn [orb].
  rewrite Edl, Edr. rewrite !put_some by lia. reflexivity.
Qed.

Lemma tick_keeps_wf (d d' : t) (inL inR : R) :
  wf d -> tick d inL inR = Some d' ->
  wf d' /\ maxDelaySamples d' = maxDelaySamples d /\
  delaySamplesL d' = delaySamplesL d /\ delaySamplesR d' = delaySamplesR d /\
  feedback d' = feedback d /\ mix d' = mix d /\
  writeIndex d' = (if (maxDelaySamples d <=? writeIndex d + 1)%Z then 0%Z
                   else (writeIndex d + 1)%Z).
Proof.
  intros Hwf Ht. destruct (tick_wf d inL inR Hwf) as (dl & dr & _ & _ & E).
  rewrite E in Ht. inversion Ht; subst d'; clear Ht.
  destruct Hwf as [HlL HlR Hw HdL HdR HsL HsR].
  repeat split; cbn; try assumption; try lia;
    try (rewrite update_length; assumption);
    try (apply update_small; [assumption | apply tanh_bound]).
  - destruct (maxDelaySamples d <=? writeIndex d + 1)%Z; lia.
  - destruct (maxDelaySamples d <=? writeIndex d + 1)%Z eqn:E';
      [lia | apply Z.leb_gt in E'; lia].
Qed.

Lemma ticks_keep_wf (frames : list (R * R)) : forall d : t,
  wf d ->
  exists d', ticks d frames = Some d' /\ wf d' /\
    maxDelaySamples d' = maxDelaySamples d /\
    delaySamplesL d' = delaySamplesL d /\ delaySamplesR d' = delaySamplesR d /\
    feedback d' = feedback d /\ mix d' = mix d.
Proof.
  induction frames as [| [l r] rest IH]; intros d Hwf.
  - exists d. cbn. tauto.
  - destruct (tick_wf d l r Hwf) as (dl & dr & _ & _ & E).
    cbn [ticks]. rewrite E.
    destruct (tick_keeps_wf d _ l r Hwf E) as (Hwf' & HM & HL & HR & Hf & Hm & _).
    destruct (IH _ Hwf') as (d' & Ht & Hw' & HM' & HL' & HR' & Hf' & Hm').
    exists d'. split; [exact Ht |]. split; [exact Hw' |].
    repeat split; congruence.
Qed.

(** *** Following one cell of the left buffer *)

(** Ticks left before the write index reaches cell [c]. *)
Definition gap (d : t) (c : Z) : Z :=
  if (c <? writeIndex d)%Z then (c + maxDelaySamples d - writeIndex d)%Z
  else (c - writeIndex d)%Z.

Lemma cell_survives (frames : list (R * R)) : forall (d : t) (c : Z) (v : R),
  wf d -> (0 <= c < maxDelaySamples d)%Z ->
  nth_error (bufferL d) (Z.to_nat c) = Some v ->
  (Z.of_nat (length frames) <= gap d c)%Z ->
  exists d', ticks d frames = Some d' /\ wf d' /\
    nth_error (bufferL d') (Z.to_nat c) = Some v /\
    gap d' c = (gap d c - Z.of_nat (length frames))%Z /\
    maxDelaySamples d' = maxDelaySamples d /\
    delaySamplesL d' = delaySamplesL d /\ mix d' = mix d.
Proof.
  induction frames as [| [l r] rest IH]; intros d c v Hwf Hc Hv Hg.
  - exists d. cbn [ticks length Z.of_nat].
    split; [reflexivity |]. split; [assumption |]. split; [assumption |].
    split; [lia |]. repeat split.
  - cbn [length] in Hg.
    destruct (tick_wf d l r Hwf) as (dl & dr & _ & _ & E).
    destruct (tick_keeps_wf d _ l r Hwf E) as (Hwf' & HM & HL & _ & _ & Hm & Hw').
    cbn [ticks]. rewrite E.
    set (d1 := mk _ _ _ _ _ _ _ _ _) in *.
    pose proof (wf_write d Hwf) as Hw.
    assert (Hc1 : c <> writeIndex d).
    { intros ->. unfold gap in Hg. rewrite Z.ltb_irrefl in Hg. lia. }
    assert (Hg1 : gap d1 c = (gap d c - 1)%Z).
    { unfold gap. rewrite Hw', HM.
      destruct (maxDelaySamples d <=? writeIndex d + 1)%Z eqn:E1;
        destruct (c <? writeIndex d)%Z eqn:E2;
        [apply Z.leb_le in E1 | apply Z.leb_le in E1
         | apply Z.leb_gt in E1 | apply Z.leb_gt in E1];
        [apply Z.ltb_lt in E2 | apply Z.ltb_ge in E2
         | apply Z.ltb_lt in E2 | apply Z.ltb_ge in E2].
      - replace (c <? 0)%Z with false by (symmetry; apply Z.ltb_ge; lia). lia.
      - lia.
      - replace (c <? writeIndex d + 1)%Z with true
          by (symmetry; apply Z.ltb_lt; lia). lia.
      - replace (c <? writeIndex d + 1)%Z with false
          by (symmetry; apply Z.ltb_ge; lia). lia. }
    destruct (IH d1 c v) as (d' & Ht & Hwf2 & Hv2 & Hg2 & HM2 & HL2 & Hm2).
    + exact Hwf'.
    + rewrite HM. exact Hc.
    + unfold d1. cbn [bufferL]. rewrite update_other; [exact Hv |].
      intros Heq. apply Hc1. apply Z2Nat.inj in Heq; lia.
    + rewrite Hg1. lia.
    + exists d'. split; [exact Ht |]. split; [exact Hwf2 |].
      split; [exact Hv2 |].
      split; [| repeat split; congruence].
      rewrite Hg2, Hg1. cbn [length]. rewrite Nat2Z.inj_succ. lia.
Qed.

End StereoDelayFacts.

Section StereoDelayProperties.
Import CMath StereoDelay TanhFacts StereoDelayFacts.
Local Open Scope R_scope.

Lemma mix_clamped (m : R) : 0 <= Rmax 0 (Rmin m 1) <= 1.
Proof.
  unfold Rmax, Rmin. destruct (Rle_dec m 1); destruct (Rle_dec 0 _); lra.
Qed.

Lemma processL_wf (d : t) (x : R) :
  wf d -> 0 <= mix d ->
  exists out, processL d x = Some out /\ Rabs (out - (1 - mix d) * x) <= mix d.
Proof.
  intros Hwf Hm. pose proof Hwf as [HlL HlR Hw HdL HdR HsL HsR].
  destruct (get_some (bufferL d) (readIndex d (delaySamplesL d))) as (dl & E).
  { rewrite HlL. now apply readIndex_range. }
  exists ((1 - mix d) * x + mix d * dl). unfold processL.
  rewrite not_empty by lia. rewrite E. split; [reflexivity |].
  pose proof (get_small _ _ _ HsL E) as [H1 H2].
  replace ((1 - mix d) * x + mix d * dl - (1 - mix d) * x) with (mix d * dl)
    by ring.
  apply Rabs_le. split; nra.
Qed.

Lemma processR_wf (d : t) (x : R) :
  wf d -> 0 <= mix d ->
  exists out, processR d x = Some out /\ Rabs (out - (1 - mix d) * x) <= mix d.
Proof.
  intros Hwf Hm. pose proof Hwf as [HlL HlR Hw HdL HdR HsL HsR].
  destruct (get_some (bufferR d) (readIndex d (delaySamplesR d))) as (dr & E).
  { rewrite HlR. now apply readIndex_range. }
  exists ((1 - mix d) * x + mix d * dr). unfold processR.
  rewrite not_empty by lia. rewrite E. split; [reflexivity |].
  pose proof (get_small _ _ _ HsR E) as [H1 H2].
  replace ((1 - mix d) * x + mix d * dr - (1 - mix d) * x) with (mix d * dr)
    by ring.
  apply Rabs_le. split; nra.
Qed.

(** X26. The delay line stays inside its buffers.  After [begin] on a
    delay constructed with [maxDelay >= 1], once [setTimeSamplesL] and
    [setTimeSamplesR] have been called (with any arguments), every [tick]
    and every [processL] / [processR] reads and writes inside the buffers,
    for any number of frames; and since [tick] stores [tanh] of its sum,
    each sample returned differs from the dry part [(1 - mix) * input] by
    at most [mix]. *)
Theorem delay_stays_in_bounds :
  forall (M : Z) (ok : bool) (d0 : StereoDelay.t) (sL sR : Z) (fb m : R)
         (frames : list (R * R)) (x : R),
    begin (new M) = Some (ok, d0) -> (1 <= M)%Z ->
    let d := StereoDelay.setMix m
               (setFeedback fb (setTimeSamplesR sR (setTimeSamplesL sL d0))) in
    ok = true /\
    exists (d' : StereoDelay.t) (outL outR : R),
      StereoDelay.ticks d frames = Some d' /\
      processL d' x = Some outL /\ processR d' x = Some outR /\
      Rabs (outL - (1 - StereoDelay.mix d) * x) <= StereoDelay.mix d /\
      Rabs (outR - (1 - StereoDelay.mix d) * x) <= StereoDelay.mix d.
Proof.
  intros M ok d0 sL sR fb m frames x Hb HM d.
  destruct (begin_new_inv M ok d0 Hb) as (_ & Hok & ->).
  split; [exact Hok |].
  assert (Hwf : wf d).
  { unfold d. apply wf_setMix, wf_setFeedback. now apply wf_configured. }
  assert (Hmix : 0 <= StereoDelay.mix d <= 1) by apply mix_clamped.
  destruct (ticks_keep_wf frames d Hwf) as (d' & Ht & Hwf' & _ & _ & _ & _ & Hm').
  destruct (processL_wf d' x Hwf') as (outL & EL & BL); [rewrite Hm'; lra |].
  destruct (processR_wf d' x Hwf') as (outR & ER & BR); [rewrite Hm'; lra |].
  exists d', outL, outR. rewrite Hm' in BL, BR. tauto.
Qed.

Lemma delay_stays_in_bounds_witness :
  begin (new 4) = Some (true, begun 4) /\ (1 <= 4)%Z /\
  exists (d' : StereoDelay.t) (outL outR : R),
    StereoDelay.ticks
      (StereoDelay.setMix 0.5
         (setFeedback 0.5 (setTimeSamplesR 2 (setTimeSamplesL 3 (begun 4)))))
      ((1, 1) :: (0, 0) :: nil) = Some d' /\
    processL d' 0 = Some outL /\ processR d' 0 = Some outR /\
    Rabs (outL - (1 - Rmax 0 (Rmin 0.5 1)) * 0) <= Rmax 0 (Rmin 0.5 1) /\
    Rabs (outR - (1 - Rmax 0 (Rmin 0.5 1)) * 0) <= Rmax 0 (Rmin 0.5 1).
Proof.
  assert (Hb : begin (new 4) = Some (true, begun 4)) by (apply begin_new; lia).
  assert (HM : (1 <= 4)%Z) by lia.
  split; [exact Hb |]. split; [exact HM |].
  exact (proj2 (delay_stays_in_bounds 4 true (begun 4) 3 2 0.5 0.5
                  ((1, 1) :: (0, 0) :: nil) 0 Hb HM)).
Defined.

(** X27. The default delay time is not clamped.  A delay constructed with
    [1 <= maxDelay < 10000] and begun, on which [setTimeSamplesL] /
    [setTimeSamplesR] were never called, still has the default 10000
    samples: its read index is negative, and [processL], [processR] and
    [tick] all read outside the buffer. *)
Theorem default_delay_reads_out_of_bounds :
  forall (M : Z) (ok : bool) (d0 : StereoDelay.t) (x inL inR : R),
    begin (new M) = Some (ok, d0) -> (1 <= M < 10000)%Z ->
    (readIndex d0 (delaySamplesL d0) < 0)%Z /\
    processL d0 x = None /\ processR d0 x = None /\ tick d0 inL inR = None.
Proof.
  intros M ok d0 x inL inR Hb HM.
  destruct (begin_new_inv M ok d0 Hb) as (_ & _ & ->).
  assert (Hr : readIndex (begun M) 10000 = (M - 10000)%Z).
  { unfold readIndex. cbn [writeIndex maxDelaySamples begun].
    change (0 - 10000 <? 0)%Z with true. cbv iota. lia. }
  assert (He : is_empty (repeat 0 (Z.to_nat M)) = false).
  { apply not_empty. rewrite repeat_length. lia. }
  assert (Hg : get (repeat 0 (Z.to_nat M)) (M - 10000) = None)
    by (apply get_none; lia).
  cbn [delaySamplesL begun]. rewrite Hr. split; [lia |].
  unfold processL, processR, tick.
  cbn [bufferL bufferR delaySamplesL delaySamplesR begun].
  rewrite He, Hr, Hg. cbn [orb]. repeat split.
Qed.

Lemma default_delay_reads_out_of_bounds_witness :
  begin (new 5000) = Some (true, begun 5000) /\ (1 <= 5000 < 10000)%Z /\
  processL (begun 5000) 0 = None.
Proof.
  assert (Hb : begin (new 5000) = Some (true, begun 5000))
    by (apply begin_new; lia).
  assert (HM : (1 <= 5000 < 10000)%Z) by lia.
  split; [exact Hb |]. split; [exact HM |].
  exact (proj1 (proj2 (default_delay_reads_out_of_bounds
                         5000 true (begun 5000) 0 0 0 Hb HM))).
Defined.

(** X28. What goes into the delay line comes back on time.  On a begun
    and configured delay ([maxDelay >= 2]), after any number of frames,
    the value [tick] stores for the left channel,
    [tanh(inL + delayed * feedback)], is the delayed sample [processL]
    mixes in exactly [delaySamplesL] ticks later, whatever the frames in
    between are. *)
Theorem delay_returns_sample_on_time :
  forall (M : Z) (ok : bool) (d0 : StereoDelay.t) (sL sR : Z) (fb m : R)
         (before later : list (R * R)) (inL inR x : R),
    begin (new M) = Some (ok, d0) -> (2 <= M)%Z ->
    let cfg := StereoDelay.setMix m
                 (setFeedback fb (setTimeSamplesR sR (setTimeSamplesL sL d0))) in
    (Z.of_nat (length later) + 1 = delaySamplesL cfg)%Z ->
    exists (d d1 d2 : StereoDelay.t) (delayed : R),
      StereoDelay.ticks cfg before = Some d /\
      get (bufferL d) (readIndex d (delaySamplesL d)) = Some delayed /\
      tick d inL inR = Some d1 /\
      StereoDelay.ticks d1 later = Some d2 /\
      processL d2 x
      = Some ((1 - StereoDelay.mix cfg) * x
              + StereoDelay.mix cfg
                * tanh (inL + delayed * StereoDelay.feedback cfg)).
Proof.
  intros M ok d0 sL sR fb m before later inL inR x Hb HM cfg Hlen.
  destruct (begin_new_inv M ok d0 Hb) as (_ & _ & ->).
  assert (Hwf : wf cfg).
  { unfold cfg. apply wf_setMix, wf_setFeedback. apply wf_configured. lia. }
  assert (HMc : maxDelaySamples cfg = M) by reflexivity.
  assert (HdL : (1 <= delaySamplesL cfg <= M - 1)%Z).
  { unfold cfg. cbn [delaySamplesL StereoDelay.setMix setFeedback
                     setTimeSamplesR setTimeSamplesL maxDelaySamples begun]. lia. }
  destruct (ticks_keep_wf before cfg Hwf)
    as (d & Ht & Hwfd & HMd & HLd & _ & Hfd & Hmd).
  destruct (tick_wf d inL inR Hwfd) as (dl & dr & Edl & _ & E1).
  set (d1 := mk _ _ _ _ _ _ _ _ _) in E1.
  destruct (tick_keeps_wf d d1 inL inR Hwfd E1)
    as (Hwf1 & HM1 & HL1 & _ & _ & Hm1 & Hw1).
  pose proof (wf_write d Hwfd) as Hw.
  pose proof (wf_lenL d Hwfd) as Hlen_d.
  set (c := writeIndex d) in *.
  set (v := tanh (inL + dl * feedback d)) in *.
  assert (Hv1 : nth_error (bufferL d1) (Z.to_nat c) = Some v).
  { unfold d1. cbn [bufferL]. apply update_same. lia. }
  assert (Hg1 : gap d1 c = (M - 1)%Z).
  { unfold gap. rewrite Hw1, HM1, HMd, HMc.
    destruct (M <=? c + 1)%Z eqn:E.
    - apply Z.leb_le in E.
      replace (c <? 0)%Z with false by (symmetry; apply Z.ltb_ge; lia). lia.
    - apply Z.leb_gt in E.
      replace (c <? c + 1)%Z with true by (symmetry; apply Z.ltb_lt; lia). lia. }
  destruct (cell_survives later d1 c v)
    as (d2 & Ht2 & Hwf2 & Hv2 & Hg2 & HM2 & HL2 & Hm2).
  { exact Hwf1. }
  { rewrite HM1. exact Hw. }
  { exact Hv1. }
  { rewrite Hg1. lia. }
  exists d, d1, d2, dl.
  split; [exact Ht |]. split; [exact Edl |]. split; [exact E1 |].
  split; [exact Ht2 |].
  assert (Hri : readIndex d2 (delaySamplesL d2) = c).
  { pose proof (wf_write d2 Hwf2) as Hw2.
    rewrite Hg1 in Hg2. unfold gap in Hg2. unfold readIndex.
    rewrite HL2, HL1, HLd, HM2, HM1, HMd, HMc in *.
    destruct (c <? writeIndex d2)%Z eqn:E; [apply Z.ltb_lt in E | apply Z.ltb_ge in E].
    - replace (writeIndex d2 - delaySamplesL cfg <? 0)%Z with false
        by (symmetry; apply Z.ltb_ge; lia). lia.
    - replace (writeIndex d2 - delaySamplesL cfg <? 0)%Z with true
        by (symmetry; apply Z.ltb_lt; lia). lia. }
  unfold processL. rewrite not_empty
    by (pose proof (wf_lenL d2 Hwf2); lia).
  rewrite Hri. unfold get.
  replace ((0 <=? c) && (c <? Z.of_nat (length (bufferL d2))))%Z with true.
  - rewrite Hv2. unfold v. rewrite Hm2, Hm1, Hmd, Hfd. reflexivity.
  - symmetry. apply andb_true_iff.
    pose proof (wf_lenL d2 Hwf2).
    split; [apply Z.leb_le | apply Z.ltb_lt]; lia.
Qed.

Lemma delay_returns_sample_on_time_witness :
  begin (new 4) = Some (true, begun 4) /\ (2 <= 4)%Z /\
  (Z.of_nat (length ((0, 0) :: nil)) + 1
   = delaySamplesL
       (StereoDelay.setMix 1
          (setFeedback 0 (setTimeSamplesR 2 (setTimeSamplesL 2 (begun 4))))))%Z /\
  exists (d d1 d2 : StereoDelay.t) (delayed : R),
    StereoDelay.ticks
      (StereoDelay.setMix 1
         (setFeedback 0 (setTimeSamplesR 2 (setTimeSamplesL 2 (begun 4)))))
      nil = Some d /\
    get (bufferL d) (readIndex d (delaySamplesL d)) = Some delayed /\
    tick d 1 1 = Some d1 /\
    StereoDelay.ticks d1 ((0, 0) :: nil) = Some d2 /\
    processL d2 0
    = Some ((1 - Rmax 0 (Rmin 1 1)) * 0
            + Rmax 0 (Rmin 1 1) * tanh (1 + delayed * Rmax 0 (Rmin 0 1.1))).
Proof.
  assert (Hb : begin (new 4) = Some (true, begun 4)) by (apply begin_new; lia).
  assert (HM : (2 <= 4)%Z) by lia.
  assert (Hl : (Z.of_nat (length ((0, 0) :: nil)) + 1
                = delaySamplesL
                    (StereoDelay.setMix 1
                       (setFeedback 0
                          (setTimeSamplesR 2 (setTimeSamplesL 2 (begun 4))))))%Z)
    by reflexivity.
  split; [exact Hb |]. split; [exact HM |]. split; [exact Hl |].
  exact (delay_returns_sample_on_time 4 true (begun 4) 2 2 0 1 nil
           ((0, 0) :: nil) 1 1 0 Hb HM Hl).
Defined.

(** The delay before [begin].  On a constructed delay that was never
    begun the buffers are empty: [processL] and [processR] return their
    input unchanged and [tick] leaves the state as it is, whatever the
    settings. *)
Theorem delay_before_begin_is_a_wire :
  forall (M sL sR : Z) (fb m x inL inR : R),
    let d := StereoDelay.setMix m
               (setFeedback fb (setTimeSamplesR sR (setTimeSamplesL sL (new M)))) in
    processL d x = Some x /\ processR d x = Some x /\
    tick d inL inR = Some d.
Proof. intros. repeat split. Qed.

End StereoDelayProperties.

Module DistortionFacts.
Import CMath Distortion TanhFacts.
Local Open Scope R_scope.

Lemma clip_range (v : R) : -1 <= Rmax (-1) (Rmin 1 v) <= 1.
Proof.
  unfold Rmax, Rmin. destruct (Rle_dec 1 v); destruct (Rle_dec (-1) _); lra.
Qed.



Lemma soft_range (x drive : R) : -1 < processSoftClip x drive < 1.
Proof. apply tanh_bound. Qed.

Lemma hard_range (x drive : R) : -1 <= processHardClip x drive <= 1.
Proof. apply clip_range. Qed.

Lemma fold_range (x drive : R) : -1 <= processWavefolder x drive <= 1.
Proof. apply clip_range. Qed.

Lemma diode_range (x drive : R) : -2 < processDiode x drive < 1.
Proof.
  unfold processDiode. cbv zeta.
  destruct (Rle_dec 0 (x * drive)) as [H | H].
  - pose proof (tanh_bound (x * drive)).
    pose proof (proj1 (tanh_sign (x * drive)) H). lra.
  - pose proof (tanh_bound (x * drive * 0.5)).
    assert (Hn : x * drive * 0.5 <= 0) by lra.
    pose proof (proj2 (tanh_sign (x * drive * 0.5)) Hn). lra.
Qed.

Lemma wavenet_range (x drive : R) : -1.2 < processWaveNet x drive < 1.2.
Proof.
  unfold processWaveNet. cbv zeta.
  match goal with |- _ < tanh ?a * _ < _ => pose proof (tanh_bound a) end.
  lra.
Qed.

Lemma wet_range (d : t) (x drive : R) : -2 < wet d x drive < 1.2.
Proof.
  unfold wet. destruct (type d).
  - pose proof (soft_range x drive). lra.
  - pose proof (hard_range x drive). lra.
  - pose proof (fold_range x drive). lra.
  - pose proof (diode_range x drive). lra.
  - pose proof (wavenet_range x drive). lra.
Qed.

Lemma reachable_mix (d : t) : reachable d -> 0 <= mix d <= 1.
Proof.
  induction 1; simpl; try assumption; try lra.
  unfold Rmax, Rmin. destruct (Rle_dec 1 m); destruct (Rle_dec 0 _); lra.
Qed.

End DistortionFacts.

Section DistortionProperties.
Import CMath Distortion TanhFacts DistortionFacts.
Local Open Scope R_scope.

(** X29. The distortion stage as a whole.  Disabled, or with an amount of
    0.01 or less, [process] returns its input untouched.  Otherwise, the
    mix being always in [[0,1]], the output is the dry part
    [(1 - mix) * input] plus a wet part between [-2 * mix] and
    [1.2 * mix], for every distortion type and every input. *)
Theorem distortion_output_range :
  forall (d : Distortion.t) (x : R),
    Distortion.reachable d ->
    0 <= Distortion.mix d <= 1 /\
    (enabled d = false \/ amount d <= 0.01 -> Distortion.process d x = x) /\
    (enabled d = true -> 0.01 < amount d ->
     (1 - Distortion.mix d) * x - 2 * Distortion.mix d
     <= Distortion.process d x
     <= (1 - Distortion.mix d) * x + 1.2 * Distortion.mix d).
Proof.
  intros d x Hr. pose proof (reachable_mix d Hr) as Hm.
  split; [exact Hm |]. split.
  - intros H. unfold Distortion.process.
    destruct (enabled d); destruct (Rle_dec (amount d) 0.01); cbn;
      try reflexivity.
    destruct H; [discriminate | lra].
  - intros He Ha. unfold Distortion.process. rewrite He.
    destruct (Rle_dec (amount d) 0.01); [lra |]. cbn [negb orb]. cbv zeta.
    pose proof (wet_range d x (1 + amount d * 9)). nra.
Qed.

Lemma distortion_output_range_witness :
  Distortion.reachable
    (setEnabled true (setAmount 0.5 (setType HARD_CLIP Distortion.init))) /\
  0 <= Distortion.mix
         (setEnabled true (setAmount 0.5 (setType HARD_CLIP Distortion.init))) <= 1.
Proof.
  assert (H : Distortion.reachable
                (setEnabled true
                   (setAmount 0.5 (setType HARD_CLIP Distortion.init)))).
  { apply Distortion.r_setEnabled, Distortion.r_setAmount,
      Distortion.r_setType, Distortion.r_init. }
  split; [exact H |].
  exact (proj1 (distortion_output_range _ 0 H)).
Defined.


End DistortionProperties.
